(** * Spy Cat Agency backend: the in-memory store and its rule engine

    A shallow embedding of [backend/app] (models.py, crud.py, dependencies.py
    and the two routers) and the properties of its assignment / completion /
    deletion rules.

    Conventions of the embedding.
    - Python [int] is [Z]; [str] is [string]; [float] is the kernel's binary64
      [float]; [Optional[T]] is [option T].
    - A [Dict[int, V]] is an insertion-ordered association list ([Dict.t V]).
    - [models.Target] instances are shared between [fake_targets_db] and the
      [targets] list of a [models.Mission]; they live in an explicit object
      heap and are named by their address ([loc]).  Cat and Mission instances
      are reachable through their dictionary entry only, so the entry holds
      the object and an attribute assignment is an in-place update of that
      entry.
    - An [async def] of crud.py is a computation in the monad [M]: it reads
      and writes the store and either returns or raises an [HTTPException];
      what was written before a [raise] stays written.
    - [HTTPException.detail] (a message for humans) is not modelled.
    - The models are pydantic v2 models (models.py says so): building a
      [Mission] from a list of [Target] instances keeps those instances, and
      an attribute assignment is not validated. *)

From Stdlib Require Import ZArith String Ascii List Bool Lia Floats.
From stdpp Require Import prelude strings sorting.

Local Open Scope Z_scope.

(** ** models.py *)

Module Target.
Record t : Type := mk {
  id : Z;
  name : string;
  country : string;
  notes : option string;
  is_complete : bool
}.

Definition with_notes (v : option string) (x : t) : t :=
  mk (id x) (name x) (country x) v (is_complete x).

Definition with_is_complete (v : bool) (x : t) : t :=
  mk (id x) (name x) (country x) (notes x) v.

(** pydantic's [BaseModel.__eq__]: same class and equal fields. *)
#[global] Instance eq_dec : EqDecision t.
Proof. solve_decision. Defined.
End Target.

Module TargetCreate.
Record t : Type := mk {
  name : string;
  country : string;
  notes : option string;
  is_complete : bool
}.
End TargetCreate.

(** An address in the heap of [models.Target] instances. *)
Abbreviation loc := nat.

Module Mission.
Record t : Type := mk {
  id : Z;
  is_complete : bool;
  cat_id : option Z;
  targets : list loc
}.

Definition with_is_complete (v : bool) (x : t) : t :=
  mk (id x) v (cat_id x) (targets x).

Definition with_cat_id (v : option Z) (x : t) : t :=
  mk (id x) (is_complete x) v (targets x).

Definition with_targets (v : list loc) (x : t) : t :=
  mk (id x) (is_complete x) (cat_id x) v.
End Mission.

Module MissionCreate.
Record t : Type := mk {
  is_complete : bool;
  targets : list TargetCreate.t
}.

(** [targets: List[TargetCreate] = Field(..., min_length=1, max_length=3)] *)
Definition valid (x : t) : bool :=
  (1 <=? length (targets x))%nat && (length (targets x) <=? 3)%nat.
End MissionCreate.

Module CatCreate.
Record t : Type := mk {
  name : string;
  years_of_experience : Z;
  breed : string;
  salary : float
}.

(** [years_of_experience: int = Field(..., ge=0)],
    [salary: float = Field(..., gt=0)] *)
Definition valid (x : t) : bool :=
  (0 <=? years_of_experience x) && PrimFloat.ltb 0%float (salary x).
End CatCreate.

Module CatUpdate.
Record t : Type := mk { salary : option float }.

(** [salary: Optional[float] = Field(None, gt=0)] *)
Definition valid (x : t) : bool :=
  match salary x with
  | Some v => PrimFloat.ltb 0%float v
  | None => true
  end.
End CatUpdate.

Module Cat.
Record t : Type := mk {
  id : Z;
  name : string;
  years_of_experience : Z;
  breed : string;
  salary : float;
  mission_id : option Z
}.

Definition with_salary (v : float) (x : t) : t :=
  mk (id x) (name x) (years_of_experience x) (breed x) v (mission_id x).

Definition with_mission_id (v : option Z) (x : t) : t :=
  mk (id x) (name x) (years_of_experience x) (breed x) (salary x) v.
End Cat.

Module MissionAssignment.
Record t : Type := mk { cat_id : Z }.
End MissionAssignment.

(** ** Python dictionaries with integer keys

    Entries are kept in insertion order; a key occurs at most once in a
    dictionary built by [set] from the empty one. *)

Module Dict.
Definition t (V : Type) : Type := list (Z * V).

Section ops.
Context {V : Type}.

Definition empty : t V := [].

(** [d.get(k)] *)
Fixpoint get (d : t V) (k : Z) : option V :=
  match d with
  | [] => None
  | (k', v) :: d' => if k' =? k then Some v else get d' k
  end.

(** [k in d] *)
Definition contains (d : t V) (k : Z) : bool :=
  match get d k with Some _ => true | None => false end.

(** [d[k] = v]: an existing key keeps its place, a new one goes last. *)
Fixpoint set (d : t V) (k : Z) (v : V) : t V :=
  match d with
  | [] => [(k, v)]
  | (k', v') :: d' =>
      if k' =? k then (k, v) :: d' else (k', v') :: set d' k v
  end.

(** [d.pop(k, None)], the dictionary that is left. *)
Fixpoint pop (d : t V) (k : Z) : t V :=
  match d with
  | [] => []
  | (k', v) :: d' => if k' =? k then pop d' k else (k', v) :: pop d' k
  end.

(** An attribute assignment on the object stored under [k]. *)
Fixpoint alter (f : V → V) (d : t V) (k : Z) : t V :=
  match d with
  | [] => []
  | (k', v) :: d' =>
      if k' =? k then (k', f v) :: d' else (k', v) :: alter f d' k
  end.

(** [d.keys()] and [d.values()], in insertion order. *)
Definition keys (d : t V) : list Z := fst <$> d.
Definition values (d : t V) : list V := snd <$> d.
End ops.
End Dict.

(** [xs[start:stop]] for a list, with Python's treatment of negative and
    out-of-range bounds. *)
Definition py_slice {A : Type} (xs : list A) (start stop : Z) : list A :=
  let n := Z.of_nat (length xs) in
  let clip i := if i <? 0 then Z.max 0 (i + n) else Z.min i n in
  take (Z.to_nat (clip stop - clip start)) (drop (Z.to_nat (clip start)) xs).

(** ** crud.py: the process-wide store *)

Record Store : Type := mkStore {
  heap : list Target.t;
  fake_cats_db : Dict.t Cat.t;
  fake_missions_db : Dict.t Mission.t;
  fake_targets_db : Dict.t loc;
  next_cat_id : Z;
  next_mission_id : Z;
  next_target_id : Z
}.

Definition set_heap (v : list Target.t) (s : Store) : Store :=
  mkStore v (fake_cats_db s) (fake_missions_db s) (fake_targets_db s)
          (next_cat_id s) (next_mission_id s) (next_target_id s).
Definition set_fake_cats_db (v : Dict.t Cat.t) (s : Store) : Store :=
  mkStore (heap s) v (fake_missions_db s) (fake_targets_db s)
          (next_cat_id s) (next_mission_id s) (next_target_id s).
Definition set_fake_missions_db (v : Dict.t Mission.t) (s : Store) : Store :=
  mkStore (heap s) (fake_cats_db s) v (fake_targets_db s)
          (next_cat_id s) (next_mission_id s) (next_target_id s).
Definition set_fake_targets_db (v : Dict.t loc) (s : Store) : Store :=
  mkStore (heap s) (fake_cats_db s) (fake_missions_db s) v
          (next_cat_id s) (next_mission_id s) (next_target_id s).
Definition set_next_cat_id (v : Z) (s : Store) : Store :=
  mkStore (heap s) (fake_cats_db s) (fake_missions_db s) (fake_targets_db s)
          v (next_mission_id s) (next_target_id s).
Definition set_next_mission_id (v : Z) (s : Store) : Store :=
  mkStore (heap s) (fake_cats_db s) (fake_missions_db s) (fake_targets_db s)
          (next_cat_id s) v (next_target_id s).
Definition set_next_target_id (v : Z) (s : Store) : Store :=
  mkStore (heap s) (fake_cats_db s) (fake_missions_db s) (fake_targets_db s)
          (next_cat_id s) (next_mission_id s) v.

(** The module-level initial values, which [reset_db_state] restores. *)
Definition reset_db_state : Store :=
  mkStore [] Dict.empty Dict.empty Dict.empty 1 1 1.

(** ** Exceptions and the store monad *)

Definition HTTP_400_BAD_REQUEST : Z := 400.
Definition HTTP_404_NOT_FOUND : Z := 404.
Definition HTTP_409_CONFLICT : Z := 409.
Definition HTTP_422_UNPROCESSABLE_ENTITY : Z := 422.
Definition HTTP_500_INTERNAL_SERVER_ERROR : Z := 500.
Definition HTTP_502_BAD_GATEWAY : Z := 502.
Definition HTTP_503_SERVICE_UNAVAILABLE : Z := 503.

Record HTTPException : Type := mkHTTPException { status_code : Z }.

(** The spec's error kinds, as the status the code raises for them. *)
Definition NotFound : HTTPException := mkHTTPException HTTP_404_NOT_FOUND.
Definition Conflict : HTTPException := mkHTTPException HTTP_409_CONFLICT.
Definition Forbidden : HTTPException := mkHTTPException HTTP_400_BAD_REQUEST.

Inductive Result (A : Type) : Type :=
| Return (a : A)
| Raise (e : HTTPException).
Arguments Return {A} a.
Arguments Raise {A} e.

Definition M (A : Type) : Type := Store → Result A * Store.

Definition ret {A : Type} (a : A) : M A := λ s, (Return a, s).
Definition raise {A : Type} (e : HTTPException) : M A := λ s, (Raise e, s).
Definition bind {A B : Type} (m : M A) (k : A → M B) : M B :=
  λ s, match m s with
       | (Return a, s') => k a s'
       | (Raise e, s') => (Raise e, s')
       end.
Definition gets {A : Type} (f : Store → A) : M A := λ s, (Return (f s), s).
Definition modify (f : Store → Store) : M unit := λ s, (Return tt, f s).

Declare Scope store_scope.
Delimit Scope store_scope with M.
Notation "x <- m ;; k" := (bind m (λ x, k))
  (at level 20, m at level 99, k at level 200, only parsing) : store_scope.
Notation "m ;; k" := (bind m (λ _, k))
  (at level 100, k at level 200, only parsing, right associativity) : store_scope.
Local Open Scope store_scope.

(** ** Target objects on the heap *)

(** [Target(...)]: a new instance. *)
Definition new_target (x : Target.t) : M loc :=
  l <- gets (λ s, length (heap s)) ;;
  modify (λ s, set_heap (heap s ++ [x]) s) ;;
  ret l.

(** [t.is_complete] for the instance at [l].  A Python reference always
    names a live object; the default is there for totality only. *)
Definition is_complete_at (h : list Target.t) (l : loc) : bool :=
  match h !! l with
  | Some x => Target.is_complete x
  | None => false
  end.

(** [target in targets]: list membership, by identity or by [==]. *)
Definition py_in (h : list Target.t) (target : loc) (targets : list loc) : bool :=
  existsb (λ x, (x =? target)%nat || bool_decide (h !! x = h !! target)) targets.

(** [a == b] for an [Optional[int]] and an [int]. *)
Definition opt_int_eqb (a : option Z) (b : Z) : bool :=
  match a with
  | Some x => x =? b
  | None => false
  end.

(** ** crud.py *)

Module crud.

(** *** Spy cats *)

Definition create_cat (cat_in : CatCreate.t) : M Cat.t :=
  duplicate <- gets (λ s,
    existsb (λ existing_cat,
               String.eqb (Cat.name existing_cat) (CatCreate.name cat_in)
               && String.eqb (Cat.breed existing_cat) (CatCreate.breed cat_in))
            (Dict.values (fake_cats_db s))) ;;
  if (duplicate : bool) then raise (mkHTTPException HTTP_409_CONFLICT)
  else
    id <- gets next_cat_id ;;
    let db_cat :=
      Cat.mk id (CatCreate.name cat_in) (CatCreate.years_of_experience cat_in)
             (CatCreate.breed cat_in) (CatCreate.salary cat_in) None in
    modify (λ s, set_fake_cats_db (Dict.set (fake_cats_db s) id db_cat) s) ;;
    modify (λ s, set_next_cat_id (next_cat_id s + 1) s) ;;
    ret db_cat.

Definition get_cat (cat_id : Z) : M (option Cat.t) :=
  gets (λ s, Dict.get (fake_cats_db s) cat_id).

Definition get_cats (skip limit : Z) : M (list Cat.t) :=
  gets (λ s, py_slice (Dict.values (fake_cats_db s)) skip (skip + limit)).

Definition update_cat_salary (cat_id : Z) (salary : float) : M (option Cat.t) :=
  present <- gets (λ s, Dict.contains (fake_cats_db s) cat_id) ;;
  if negb present then ret None
  else
    modify (λ s, set_fake_cats_db
                   (Dict.alter (Cat.with_salary salary) (fake_cats_db s) cat_id) s) ;;
    gets (λ s, Dict.get (fake_cats_db s) cat_id).

(** *** Missions and targets *)

(** One round of the loop of [get_mission]: the instance that
    [fake_targets_db] holds under the id of [target_model], if any. *)
Definition fetch_target (s : Store) (target_model : loc) : option loc :=
  match heap s !! target_model with
  | Some x => Dict.get (fake_targets_db s) (Target.id x)
  | None => None
  end.

(** [mission.targets = fetched_targets] for the mission stored under
    [mission_id]. *)
Definition refresh_targets (mission_id : Z) : M unit :=
  modify (λ s,
    set_fake_missions_db
      (Dict.alter
         (λ mission,
            Mission.with_targets
              (omap (fetch_target s) (Mission.targets mission)) mission)
         (fake_missions_db s) mission_id) s).

Definition get_mission (mission_id : Z) : M (option Mission.t) :=
  mission <- gets (λ s, Dict.get (fake_missions_db s) mission_id) ;;
  match mission with
  | None => ret None
  | Some _ =>
      refresh_targets mission_id ;;
      gets (λ s, Dict.get (fake_missions_db s) mission_id)
  end.

Fixpoint refresh_each (missions : list Z) : M unit :=
  match missions with
  | [] => ret tt
  | mission_id :: rest => refresh_targets mission_id ;; refresh_each rest
  end.

Definition get_missions (skip limit : Z) : M (list Mission.t) :=
  missions <- gets (λ s,
    py_slice (Dict.keys (fake_missions_db s)) skip (skip + limit)) ;;
  refresh_each missions ;;
  gets (λ s, omap (Dict.get (fake_missions_db s)) missions).

Definition delete_cat (cat_id : Z) : M (option Cat.t) :=
  cat <- gets (λ s, Dict.get (fake_cats_db s) cat_id) ;;
  match cat with
  | Some cat =>
      match Cat.mission_id cat with
      | Some cat_mission_id =>
          mission <- get_mission cat_mission_id ;;
          match mission with
          | Some mission =>
              if negb (Mission.is_complete mission)
              then raise (mkHTTPException HTTP_400_BAD_REQUEST)
              else ret tt
          | None => ret tt
          end
      | None => ret tt
      end
  | None => ret tt
  end ;;
  popped <- gets (λ s, Dict.get (fake_cats_db s) cat_id) ;;
  modify (λ s, set_fake_cats_db (Dict.pop (fake_cats_db s) cat_id) s) ;;
  ret popped.

(** The loop of [create_mission] over [mission_in.targets]. *)
Fixpoint create_targets (targets_in : list TargetCreate.t) (db_targets : list loc)
  : M (list loc) :=
  match targets_in with
  | [] => ret db_targets
  | target_in :: rest =>
      id <- gets next_target_id ;;
      db_target <- new_target
        (Target.mk id (TargetCreate.name target_in)
                   (TargetCreate.country target_in)
                   (TargetCreate.notes target_in) false) ;;
      modify (λ s, set_fake_targets_db
                     (Dict.set (fake_targets_db s) id db_target) s) ;;
      modify (λ s, set_next_target_id (next_target_id s + 1) s) ;;
      create_targets rest (db_targets ++ [db_target])
  end.

Definition create_mission (mission_in : MissionCreate.t) : M Mission.t :=
  db_targets <- create_targets (MissionCreate.targets mission_in) [] ;;
  id <- gets next_mission_id ;;
  let db_mission := Mission.mk id false None db_targets in
  modify (λ s, set_fake_missions_db
                 (Dict.set (fake_missions_db s) id db_mission) s) ;;
  modify (λ s, set_next_mission_id (next_mission_id s + 1) s) ;;
  ret db_mission.

Definition assign_cat_to_mission (mission_id cat_id : Z) : M (option Mission.t) :=
  mission <- get_mission mission_id ;;
  cat <- get_cat cat_id ;;
  match mission with
  | None => raise (mkHTTPException HTTP_404_NOT_FOUND)
  | Some mission =>
  match cat with
  | None => raise (mkHTTPException HTTP_404_NOT_FOUND)
  | Some cat =>
      match Mission.cat_id mission with
      | Some _ => raise (mkHTTPException HTTP_409_CONFLICT)
      | None =>
          match Cat.mission_id cat with
          | Some cat_mission_id =>
              assigned_mission <- get_mission cat_mission_id ;;
              match assigned_mission with
              | Some assigned_mission =>
                  if negb (Mission.is_complete assigned_mission)
                  then raise (mkHTTPException HTTP_409_CONFLICT)
                  else ret tt
              | None => ret tt
              end
          | None => ret tt
          end ;;
          modify (λ s, set_fake_missions_db
                         (Dict.alter (Mission.with_cat_id (Some cat_id))
                                     (fake_missions_db s) mission_id) s) ;;
          modify (λ s, set_fake_cats_db
                         (Dict.alter (Cat.with_mission_id (Some mission_id))
                                     (fake_cats_db s) cat_id) s) ;;
          gets (λ s, Dict.get (fake_missions_db s) mission_id)
      end
  end
  end.

Definition update_target_notes (mission_id target_id : Z) (notes : string)
  : M loc :=
  mission <- get_mission mission_id ;;
  match mission with
  | None => raise (mkHTTPException HTTP_404_NOT_FOUND)
  | Some mission =>
      if Mission.is_complete mission
      then raise (mkHTTPException HTTP_400_BAD_REQUEST)
      else
        target <- gets (λ s, Dict.get (fake_targets_db s) target_id) ;;
        match target with
        | None => raise (mkHTTPException HTTP_404_NOT_FOUND)
        | Some target =>
            found <- gets (λ s, py_in (heap s) target (Mission.targets mission)) ;;
            if negb found then raise (mkHTTPException HTTP_404_NOT_FOUND)
            else
              frozen <- gets (λ s, is_complete_at (heap s) target) ;;
              if (frozen : bool) then raise (mkHTTPException HTTP_400_BAD_REQUEST)
              else
                modify (λ s, set_heap
                  (alter (Target.with_notes (Some notes)) target (heap s)) s) ;;
                ret target
        end
  end.

Definition mark_target_complete (mission_id target_id : Z) : M loc :=
  mission <- get_mission mission_id ;;
  match mission with
  | None => raise (mkHTTPException HTTP_404_NOT_FOUND)
  | Some mission =>
      if Mission.is_complete mission
      then raise (mkHTTPException HTTP_400_BAD_REQUEST)
      else
        target <- gets (λ s, Dict.get (fake_targets_db s) target_id) ;;
        match target with
        | None => raise (mkHTTPException HTTP_404_NOT_FOUND)
        | Some target =>
            found <- gets (λ s, py_in (heap s) target (Mission.targets mission)) ;;
            if negb found then raise (mkHTTPException HTTP_404_NOT_FOUND)
            else
              already <- gets (λ s, is_complete_at (heap s) target) ;;
              if (already : bool) then ret target
              else
                modify (λ s, set_heap
                  (alter (Target.with_is_complete true) target (heap s)) s) ;;
                all_targets_complete <- gets (λ s,
                  forallb (is_complete_at (heap s)) (Mission.targets mission)) ;;
                (if (all_targets_complete : bool) then
                   modify (λ s, set_fake_missions_db
                     (Dict.alter (Mission.with_is_complete true)
                                 (fake_missions_db s) mission_id) s) ;;
                   match Mission.cat_id mission with
                   | Some mission_cat_id =>
                       present <- gets (λ s,
                         Dict.contains (fake_cats_db s) mission_cat_id) ;;
                       if negb (mission_cat_id =? 0) && present then
                         modify (λ s, set_fake_cats_db
                           (Dict.alter (Cat.with_mission_id None)
                                       (fake_cats_db s) mission_cat_id) s)
                       else ret tt
                   | None => ret tt
                   end
                 else ret tt) ;;
                ret target
        end
  end.

(** The loop of [delete_mission] over a copy of [mission.targets]. *)
Fixpoint pop_targets (targets : list loc) : M unit :=
  match targets with
  | [] => ret tt
  | target :: rest =>
      modify (λ s,
        match heap s !! target with
        | Some x =>
            set_fake_targets_db (Dict.pop (fake_targets_db s) (Target.id x)) s
        | None => s
        end) ;;
      pop_targets rest
  end.

Definition delete_mission (mission_id : Z) : M (option Mission.t) :=
  mission <- get_mission mission_id ;;
  match mission with
  | None => ret None
  | Some mission =>
      match Mission.cat_id mission with
      | Some mission_cat_id =>
          cat <- get_cat mission_cat_id ;;
          match cat with
          | Some cat =>
              if opt_int_eqb (Cat.mission_id cat) mission_id
                 && negb (Mission.is_complete mission)
              then raise (mkHTTPException HTTP_400_BAD_REQUEST)
              else ret tt
          | None => ret tt
          end
      | None => ret tt
      end ;;
      pop_targets (Mission.targets mission) ;;
      popped <- gets (λ s, Dict.get (fake_missions_db s) mission_id) ;;
      modify (λ s, set_fake_missions_db
                     (Dict.pop (fake_missions_db s) mission_id) s) ;;
      ret popped
  end.

End crud.

(** ** dependencies.py: breed validation against TheCatAPI *)

(** What [client.get(THECATAPI_URL)], [raise_for_status()] and [json()]
    produce: the breed names of the reply, or the exception raised on the
    way. *)
Inductive Exception : Type :=
| httpx_RequestError
| httpx_HTTPStatusError
| fastapi_HTTPException (e : HTTPException)
| OtherException.

Inductive TheCatAPI : Type :=
| breeds_data (names : list string)
| api_raises (e : Exception).

(** [str.lower()], on ASCII letters. *)
Definition ascii_lower (c : ascii) : ascii :=
  let n := nat_of_ascii c in
  if (65 <=? n)%nat && (n <=? 90)%nat then ascii_of_nat (n + 32) else c.

Fixpoint lower (x : string) : string :=
  match x with
  | EmptyString => EmptyString
  | String c rest => String (ascii_lower c) (lower rest)
  end.

(** The body of the [try] block. *)
Definition breed_lookup (api : TheCatAPI) (breed_to_validate : string)
  : Exception + unit :=
  match api with
  | api_raises e => inl e
  | breeds_data names =>
      if negb (existsb (λ b, String.eqb (lower b) (lower breed_to_validate)) names)
      then inl (fastapi_HTTPException (mkHTTPException HTTP_400_BAD_REQUEST))
      else inr tt
  end.

(** The [except] clauses, tried in order; [HTTPException] is an [Exception]
    and neither of the two httpx classes, so it reaches the last clause. *)
Definition breed_except (e : Exception) : HTTPException :=
  match e with
  | httpx_RequestError => mkHTTPException HTTP_503_SERVICE_UNAVAILABLE
  | httpx_HTTPStatusError => mkHTTPException HTTP_502_BAD_GATEWAY
  | fastapi_HTTPException _ | OtherException =>
      mkHTTPException HTTP_500_INTERNAL_SERVER_ERROR
  end.

Definition validate_cat_breed_from_payload
    (api : TheCatAPI) (cat_create_payload : CatCreate.t) : M CatCreate.t :=
  match breed_lookup api (CatCreate.breed cat_create_payload) with
  | inr _ => ret cat_create_payload
  | inl e => raise (breed_except e)
  end.

(** ** The request surface *)

(** FastAPI answers a body that fails the pydantic model with 422 and does
    not call the endpoint. *)
Definition request_body {A : Type} (valid : A → bool) (body : A) : M A :=
  if valid body then ret body
  else raise (mkHTTPException HTTP_422_UNPROCESSABLE_ENTITY).

(** [response_model=schemas.Target]: the fields of the returned instance as
    they are when the endpoint returns. *)
Definition dump_target (target : loc) : M Target.t :=
  x <- gets (λ s, heap s !! target) ;;
  match x with
  | Some x => ret x
  | None => raise (mkHTTPException HTTP_500_INTERNAL_SERVER_ERROR)
  end.

(** [response_model=schemas.Mission] *)
Module MissionOut.
Record t : Type := mk {
  id : Z;
  is_complete : bool;
  cat_id : option Z;
  targets : list Target.t
}.
End MissionOut.

Definition dump_mission (mission : Mission.t) : M MissionOut.t :=
  gets (λ s, MissionOut.mk (Mission.id mission) (Mission.is_complete mission)
               (Mission.cat_id mission)
               (omap (λ l, heap s !! l) (Mission.targets mission))).

(** *** routers/cats.py *)

Module cats.

Definition create_spy_cat (api : TheCatAPI) (body : CatCreate.t) : M Cat.t :=
  payload <- request_body CatCreate.valid body ;;
  cat_in <- validate_cat_breed_from_payload api payload ;;
  crud.create_cat cat_in.

Definition list_spy_cats (skip limit : Z) : M (list Cat.t) :=
  crud.get_cats skip limit.

Definition get_spy_cat (cat_id : Z) : M Cat.t :=
  db_cat <- crud.get_cat cat_id ;;
  match db_cat with
  | None => raise (mkHTTPException HTTP_404_NOT_FOUND)
  | Some db_cat => ret db_cat
  end.

Definition update_spy_cat_salary (cat_id : Z) (body : CatUpdate.t) : M Cat.t :=
  salary_update <- request_body CatUpdate.valid body ;;
  match CatUpdate.salary salary_update with
  | None => raise (mkHTTPException HTTP_400_BAD_REQUEST)
  | Some salary =>
      updated_cat <- crud.update_cat_salary cat_id salary ;;
      match updated_cat with
      | None => raise (mkHTTPException HTTP_404_NOT_FOUND)
      | Some updated_cat => ret updated_cat
      end
  end.

Definition delete_spy_cat (cat_id : Z) : M unit :=
  deleted_cat <- crud.delete_cat cat_id ;;
  match deleted_cat with
  | None => raise (mkHTTPException HTTP_404_NOT_FOUND)
  | Some _ => ret tt
  end.

End cats.

(** *** routers/missions.py *)

Module missions.

Definition create_new_mission (body : MissionCreate.t) : M MissionOut.t :=
  mission_in <- request_body MissionCreate.valid body ;;
  db_mission <- crud.create_mission mission_in ;;
  dump_mission db_mission.

Fixpoint dump_missions (ms : list Mission.t) : M (list MissionOut.t) :=
  match ms with
  | [] => ret []
  | m :: rest =>
      o <- dump_mission m ;;
      os <- dump_missions rest ;;
      ret (o :: os)
  end.

Definition list_all_missions (skip limit : Z) : M (list MissionOut.t) :=
  ms <- crud.get_missions skip limit ;;
  dump_missions ms.

Definition get_single_mission (mission_id : Z) : M MissionOut.t :=
  db_mission <- crud.get_mission mission_id ;;
  match db_mission with
  | None => raise (mkHTTPException HTTP_404_NOT_FOUND)
  | Some db_mission => dump_mission db_mission
  end.

Definition assign_cat_to_a_mission (mission_id : Z) (assignment : MissionAssignment.t)
  : M MissionOut.t :=
  updated_mission <-
    crud.assign_cat_to_mission mission_id (MissionAssignment.cat_id assignment) ;;
  match updated_mission with
  | None => raise (mkHTTPException HTTP_404_NOT_FOUND)
  | Some updated_mission => dump_mission updated_mission
  end.

Definition update_mission_target_notes (mission_id target_id : Z) (notes : string)
  : M Target.t :=
  updated_target <- crud.update_target_notes mission_id target_id notes ;;
  dump_target updated_target.

Definition mark_mission_target_complete (mission_id target_id : Z) : M Target.t :=
  updated_target <- crud.mark_target_complete mission_id target_id ;;
  dump_target updated_target.

Definition delete_a_mission (mission_id : Z) : M unit :=
  deleted_mission <- crud.delete_mission mission_id ;;
  match deleted_mission with
  | None => raise (mkHTTPException HTTP_404_NOT_FOUND)
  | Some _ => ret tt
  end.

End missions.

(** *** Requests and runs of the service *)

Inductive Request : Type :=
| POST_cats (api : TheCatAPI) (body : CatCreate.t)
| GET_cats (skip limit : Z)
| GET_cat (cat_id : Z)
| PATCH_cat_salary (cat_id : Z) (body : CatUpdate.t)
| DELETE_cat (cat_id : Z)
| POST_missions (body : MissionCreate.t)
| GET_missions (skip limit : Z)
| GET_mission (mission_id : Z)
| POST_assign_cat (mission_id : Z) (body : MissionAssignment.t)
| PATCH_target_notes (mission_id target_id : Z) (notes : string)
| PATCH_target_complete (mission_id target_id : Z)
| DELETE_mission (mission_id : Z).

(** The store a request leaves behind, whatever it answers. *)
Definition step (r : Request) (s : Store) : Store :=
  match r with
  | POST_cats api body => snd (cats.create_spy_cat api body s)
  | GET_cats skip limit => snd (cats.list_spy_cats skip limit s)
  | GET_cat cat_id => snd (cats.get_spy_cat cat_id s)
  | PATCH_cat_salary cat_id body => snd (cats.update_spy_cat_salary cat_id body s)
  | DELETE_cat cat_id => snd (cats.delete_spy_cat cat_id s)
  | POST_missions body => snd (missions.create_new_mission body s)
  | GET_missions skip limit => snd (missions.list_all_missions skip limit s)
  | GET_mission mission_id => snd (missions.get_single_mission mission_id s)
  | POST_assign_cat mission_id body =>
      snd (missions.assign_cat_to_a_mission mission_id body s)
  | PATCH_target_notes mission_id target_id notes =>
      snd (missions.update_mission_target_notes mission_id target_id notes s)
  | PATCH_target_complete mission_id target_id =>
      snd (missions.mark_mission_target_complete mission_id target_id s)
  | DELETE_mission mission_id => snd (missions.delete_a_mission mission_id s)
  end.

Definition run (rs : list Request) (s : Store) : Store :=
  fold_left (λ s r, step r s) rs s.

(** A store is reachable when some sequence of requests leads to it from the
    store the process starts with ([lifespan] calls [reset_db_state]). *)
Definition reachable (s : Store) : Prop :=
  ∃ rs : list Request, run rs reset_db_state = s.

(** ** Closed forms of the loops of crud.py *)

(** The instances that the loop of [create_mission] builds, and the entries
    it adds to [fake_targets_db]. *)
Fixpoint created (n : Z) (targets_in : list TargetCreate.t) : list Target.t :=
  match targets_in with
  | [] => []
  | target_in :: rest =>
      Target.mk n (TargetCreate.name target_in) (TargetCreate.country target_in)
                (TargetCreate.notes target_in) false
      :: created (n + 1) rest
  end.

Fixpoint registered (d : Dict.t loc) (n : Z) (l : loc) (count : nat) : Dict.t loc :=
  match count with
  | O => d
  | S count => registered (Dict.set d n l) (n + 1) (S l) count
  end.

(** What the loop of [delete_mission] leaves of [fake_targets_db]. *)
Definition popped (h : list Target.t) (d : Dict.t loc) (ls : list loc) : Dict.t loc :=
  foldl (λ d l, match h !! l with
                | Some x => Dict.pop d (Target.id x)
                | None => d
                end) d ls.

(** ** Guards and updates of crud.py, as functions of the store *)

(** The link of [cat] names a mission that is stored and not complete. *)
Definition on_active_mission (s : Store) (cat : Cat.t) : bool :=
  match Cat.mission_id cat with
  | Some k =>
      match Dict.get (fake_missions_db s) k with
      | Some m => negb (Mission.is_complete m)
      | None => false
      end
  | None => false
  end.

(** The guard of [delete_mission]. *)
Definition delete_forbidden (s : Store) (k : Z) (m : Mission.t) : bool :=
  match Mission.cat_id m with
  | Some c =>
      match Dict.get (fake_cats_db s) c with
      | Some cat =>
          opt_int_eqb (Cat.mission_id cat) k && negb (Mission.is_complete m)
      | None => false
      end
  | None => false
  end.

(** The store after the last statements of [mark_target_complete], from the
    assignment [target.is_complete = True] on. *)
Definition completed (s : Store) (k : Z) (m : Mission.t) (l : loc) : Store :=
  let s1 := set_heap (alter (Target.with_is_complete true) l (heap s)) s in
  if forallb (is_complete_at (heap s1)) (Mission.targets m) then
    let s2 := set_fake_missions_db
                (Dict.alter (Mission.with_is_complete true)
                            (fake_missions_db s1) k) s1 in
    match Mission.cat_id m with
    | Some c =>
        if negb (c =? 0) && Dict.contains (fake_cats_db s2) c
        then set_fake_cats_db
               (Dict.alter (Cat.with_mission_id None) (fake_cats_db s2) c) s2
        else s2
    | None => s2
    end
  else s1.

(** ** The properties the spec states *)

(** [x] is the Target with id [t] among the Targets that [m] owns. *)
Definition owns (s : Store) (m : Mission.t) (t : Z) (x : Target.t) : Prop :=
  ∃ l, l ∈ Mission.targets m ∧ heap s !! l = Some x ∧ Target.id x = t.

(** The owned Targets of [m], in order. *)
Definition owned_targets (s : Store) (m : Mission.t) (xs : list Target.t) : Prop :=
  Forall2 (λ l x, heap s !! l = Some x) (Mission.targets m) xs.

(** Completion of every stored Mission is the conjunction of the completion
    flags of its Targets. *)
Definition mission_flag_derived (s : Store) : Prop :=
  ∀ k m, Dict.get (fake_missions_db s) k = Some m →
    ∃ xs, owned_targets s m xs
          ∧ Mission.is_complete m = forallb Target.is_complete xs.

(** The symmetric-link property of the spec: a Cat's mission reference, if
    set, names a stored Mission whose cat reference names this Cat. *)
Definition link_symmetric (s : Store) : Prop :=
  ∀ c cat k,
    Dict.get (fake_cats_db s) c = Some cat → Cat.mission_id cat = Some k →
    ∃ m, Dict.get (fake_missions_db s) k = Some m ∧ Mission.cat_id m = Some c.

(** Some stored Cat has the (name, breed) pair of the request. *)
Definition duplicate_of (s : Store) (body : CatCreate.t) : Prop :=
  ∃ cat, cat ∈ Dict.values (fake_cats_db s)
         ∧ Cat.name cat = CatCreate.name body
         ∧ Cat.breed cat = CatCreate.breed body.


(** ** Request bodies and runs used as examples *)

(** Two targets, with completion flags set by the client. *)
Definition two_targets : MissionCreate.t :=
  MissionCreate.mk true
    [TargetCreate.mk "Alice" "FR" None true; TargetCreate.mk "Bob" "DE" None false].

Definition one_target : MissionCreate.t :=
  MissionCreate.mk false [TargetCreate.mk "Alice" "FR" None false].

Definition tom : CatCreate.t := CatCreate.mk "Tom" 3 "Siamese" 10%float.

Definition the_breeds : TheCatAPI := breeds_data ["Abyssinian"; "Siamese"].

(** Mission 1 with target 1 complete and target 2 not. *)
Definition one_done : list Request :=
  [POST_missions two_targets; PATCH_target_complete 1 1].

(** The same, with cat 1 assigned to mission 1. *)
Definition tom_on_mission : list Request :=
  [POST_missions two_targets; POST_cats the_breeds tom;
   POST_assign_cat 1 (MissionAssignment.mk 1); PATCH_target_complete 1 1].

(** Mission 1 complete. *)
Definition mission_done : list Request :=
  [POST_missions one_target; PATCH_target_complete 1 1].

(** Cat 1 assigned to mission 1 after mission 1 was completed. *)
Definition assigned_after_completion : list Request :=
  [POST_cats the_breeds tom; POST_missions one_target;
   PATCH_target_complete 1 1; POST_assign_cat 1 (MissionAssignment.mk 1)].

(** The same, and a second mission, which is not complete. *)
Definition free_again : list Request :=
  assigned_after_completion ++ [POST_missions two_targets].

(** ** The representation invariant of the store *)

Record wf (s : Store) : Prop := mk_wf {
  wf_next : 1 ≤ next_cat_id s ∧ 1 ≤ next_mission_id s;
  wf_keys :
    NoDup (Dict.keys (fake_cats_db s))
    ∧ NoDup (Dict.keys (fake_missions_db s))
    ∧ NoDup (Dict.keys (fake_targets_db s));
  wf_cats : ∀ k c,
    Dict.get (fake_cats_db s) k = Some c →
    Cat.id c = k ∧ 1 ≤ k < next_cat_id s;
  wf_missions : ∀ k m,
    Dict.get (fake_missions_db s) k = Some m →
    Mission.id m = k ∧ 1 ≤ k < next_mission_id s
    ∧ (1 ≤ length (Mission.targets m) ≤ 3)%nat;
  wf_targets : ∀ k l,
    Dict.get (fake_targets_db s) k = Some l →
    k < next_target_id s ∧ ∃ x, heap s !! l = Some x ∧ Target.id x = k;
  wf_owned : ∀ k m l,
    Dict.get (fake_missions_db s) k = Some m → l ∈ Mission.targets m →
    ∃ x, heap s !! l = Some x
         ∧ Dict.get (fake_targets_db s) (Target.id x) = Some l;
  wf_disjoint : ∀ k1 k2 m1 m2 l,
    Dict.get (fake_missions_db s) k1 = Some m1 →
    Dict.get (fake_missions_db s) k2 = Some m2 →
    l ∈ Mission.targets m1 → l ∈ Mission.targets m2 → k1 = k2;
  wf_flag : ∀ k m,
    Dict.get (fake_missions_db s) k = Some m →
    Mission.is_complete m
    = forallb (is_complete_at (heap s)) (Mission.targets m);
  wf_cat_link : ∀ c cat k,
    Dict.get (fake_cats_db s) c = Some cat → Cat.mission_id cat = Some k →
    k < next_mission_id s
    ∧ ∀ m, Dict.get (fake_missions_db s) k = Some m → Mission.cat_id m = Some c;
  wf_mission_link : ∀ k m c,
    Dict.get (fake_missions_db s) k = Some m →
    Mission.is_complete m = false → Mission.cat_id m = Some c →
    ∃ cat, Dict.get (fake_cats_db s) c = Some cat ∧ Cat.mission_id cat = Some k
}.

(** ** The updates of the store, one constructor for each way a request of
    crud.py can leave a store that satisfies the invariant *)
Inductive update (s : Store) : Store → Prop :=
| update_none : update s s
| update_create_cat (cat_in : CatCreate.t) :
    ¬ duplicate_of s cat_in →
    update s
      (set_next_cat_id (next_cat_id s + 1)
         (set_fake_cats_db
            (Dict.set (fake_cats_db s) (next_cat_id s)
               (Cat.mk (next_cat_id s) (CatCreate.name cat_in)
                  (CatCreate.years_of_experience cat_in) (CatCreate.breed cat_in)
                  (CatCreate.salary cat_in) None)) s))
| update_salary (c : Z) (cat : Cat.t) (salary : float) :
    Dict.get (fake_cats_db s) c = Some cat →
    update s
      (set_fake_cats_db (Dict.alter (Cat.with_salary salary) (fake_cats_db s) c) s)
| update_delete_cat (c : Z) (cat : Cat.t) :
    Dict.get (fake_cats_db s) c = Some cat →
    on_active_mission s cat = false →
    update s (set_fake_cats_db (Dict.pop (fake_cats_db s) c) s)
| update_create_mission (mission_in : MissionCreate.t) :
    MissionCreate.valid mission_in = true →
    update s (snd (crud.create_mission mission_in s))
| update_assign (k c : Z) (m : Mission.t) (cat : Cat.t) :
    Dict.get (fake_missions_db s) k = Some m → Mission.cat_id m = None →
    Dict.get (fake_cats_db s) c = Some cat → on_active_mission s cat = false →
    update s
      (set_fake_cats_db
         (Dict.alter (Cat.with_mission_id (Some k)) (fake_cats_db s) c)
         (set_fake_missions_db
            (Dict.alter (Mission.with_cat_id (Some c)) (fake_missions_db s) k) s))
| update_notes (k t : Z) (m : Mission.t) (l : loc) (notes : string) :
    Dict.get (fake_missions_db s) k = Some m → Mission.is_complete m = false →
    Dict.get (fake_targets_db s) t = Some l → l ∈ Mission.targets m →
    is_complete_at (heap s) l = false →
    update s (set_heap (alter (Target.with_notes (Some notes)) l (heap s)) s)
| update_complete (k t : Z) (m : Mission.t) (l : loc) :
    Dict.get (fake_missions_db s) k = Some m → Mission.is_complete m = false →
    Dict.get (fake_targets_db s) t = Some l → l ∈ Mission.targets m →
    is_complete_at (heap s) l = false →
    update s (completed s k m l)
| update_delete_mission (k : Z) (m : Mission.t) :
    Dict.get (fake_missions_db s) k = Some m → delete_forbidden s k m = false →
    update s
      (set_fake_missions_db (Dict.pop (fake_missions_db s) k)
         (set_fake_targets_db
            (popped (heap s) (fake_targets_db s) (Mission.targets m)) s)).

(** No two stored Cats have the same (name, breed) pair. *)
Definition cats_unique (s : Store) : Prop :=
  ∀ k1 k2 c1 c2,
    Dict.get (fake_cats_db s) k1 = Some c1 →
    Dict.get (fake_cats_db s) k2 = Some c2 →
    Cat.name c1 = Cat.name c2 → Cat.breed c1 = Cat.breed c2 → k1 = k2.

(** Two different cats, and one that repeats the first. *)
Definition felix : CatCreate.t := CatCreate.mk "Felix" 0 "abyssinian" 1%float.

Definition two_cats : list Request :=
  [POST_cats the_breeds tom; POST_cats the_breeds felix; POST_cats the_breeds tom].

(** Cat 1 is created and deleted. *)
Definition tom_deleted : list Request := [POST_cats the_breeds tom; DELETE_cat 1].

(** Every entry of [fake_targets_db] names a Target of a stored Mission. *)
Definition every_target_owned (s : Store) : Prop :=
  ∀ t l, Dict.get (fake_targets_db s) t = Some l →
    ∃ k m, Dict.get (fake_missions_db s) k = Some m ∧ l ∈ Mission.targets m.

(** Two missions; the first one is completed and deleted. *)
Definition first_deleted : list Request :=
  [POST_missions one_target; POST_missions two_targets;
   PATCH_target_complete 1 1; DELETE_mission 1].


(** [x] is the Target stored under id [t]. *)
Definition stored_target (s : Store) (t : Z) (x : Target.t) : Prop :=
  ∃ l, Dict.get (fake_targets_db s) t = Some l ∧ heap s !! l = Some x.

(** The keys of the three dictionaries are in strictly ascending order. *)
Definition keys_ascending (s : Store) : Prop :=
  StronglySorted Z.lt (Dict.keys (fake_cats_db s))
  ∧ StronglySorted Z.lt (Dict.keys (fake_missions_db s))
  ∧ StronglySorted Z.lt (Dict.keys (fake_targets_db s)).

(** [response_model=schemas.Mission] for the Mission [m], as a function of
    the store. *)
Definition dumped (s : Store) (m : Mission.t) : MissionOut.t :=
  MissionOut.mk (Mission.id m) (Mission.is_complete m) (Mission.cat_id m)
    (omap (λ l, heap s !! l) (Mission.targets m)).

(** * Properties *)

(** ** Dictionaries *)

Module DictFacts.
Section facts.
Context {V : Type}.
Implicit Types (d : Dict.t V) (k : Z) (v : V).

Ltac key_cases :=
  repeat match goal with
  | |- context [Z.eqb ?a ?b] => destruct (Z.eqb_spec a b)
  | |- context [decide (?a = ?b)] => destruct (decide (a = b))
  end; simplify_eq; simpl; try done.

Lemma get_set d k v k' :
  Dict.get (Dict.set d k v) k' = if decide (k = k') then Some v else Dict.get d k'.
Proof.
  induction d as [|[k0 v0] d IH]; simpl; [by key_cases|].
  destruct (Z.eqb_spec k0 k); simpl; [by key_cases|].
  rewrite IH. by key_cases.
Qed.

Lemma get_pop d k k' :
  Dict.get (Dict.pop d k) k' = if decide (k = k') then None else Dict.get d k'.
Proof.
  induction d as [|[k0 v0] d IH]; simpl; [by key_cases|].
  destruct (Z.eqb_spec k0 k); simpl; rewrite IH; by key_cases.
Qed.

Lemma get_alter (f : V → V) d k k' :
  Dict.get (Dict.alter f d k) k'
  = if decide (k = k') then f <$> Dict.get d k' else Dict.get d k'.
Proof.
  induction d as [|[k0 v0] d IH]; simpl; [by key_cases|].
  destruct (Z.eqb_spec k0 k); simpl; [by key_cases|].
  rewrite IH. by key_cases.
Qed.

Lemma alter_id (f : V → V) d k :
  (∀ v, Dict.get d k = Some v → f v = v) → Dict.alter f d k = d.
Proof.
  induction d as [|[k0 v0] d IH]; simpl; [done|]. intros Hf.
  destruct (Z.eqb_spec k0 k).
  - by rewrite Hf.
  - by rewrite IH.
Qed.

Lemma pop_absent d k : Dict.get d k = None → Dict.pop d k = d.
Proof.
  induction d as [|[k0 v0] d IH]; simpl; [done|].
  destruct (Z.eqb_spec k0 k); [done|]. intros. by rewrite IH.
Qed.

Lemma contains_true d k : Dict.contains d k = true ↔ is_Some (Dict.get d k).
Proof. unfold Dict.contains. destruct (Dict.get d k); split; try done; try eauto; by intros []. Qed.

Lemma get_elem_of d k v : Dict.get d k = Some v → (k, v) ∈ d.
Proof.
  induction d as [|[k0 v0] d IH]; simpl; [done|].
  destruct (Z.eqb_spec k0 k); intros; simplify_eq; [left | right; auto].
Qed.

Lemma elem_of_get d k v : NoDup (Dict.keys d) → (k, v) ∈ d → Dict.get d k = Some v.
Proof.
  induction d as [|[k0 v0] d IH]; simpl.
  - by intros _ ?%elem_of_nil.
  - intros [Hk0 Hnd]%NoDup_cons [?|Hin]%elem_of_cons; simplify_eq.
    + by rewrite Z.eqb_refl.
    + destruct (Z.eqb_spec k0 k) as [->|]; [|by auto].
      destruct Hk0. apply list_elem_of_fmap. by exists (k, v).
Qed.

Lemma keys_set d k v :
  Dict.keys (Dict.set d k v)
  = if Dict.contains d k then Dict.keys d else Dict.keys d ++ [k].
Proof.
  unfold Dict.contains.
  induction d as [|[k0 v0] d IH]; simpl; [done|].
  destruct (Z.eqb_spec k0 k); simpl; [by subst|].
  rewrite IH. by destruct (Dict.get d k).
Qed.

Lemma keys_alter (f : V → V) d k : Dict.keys (Dict.alter f d k) = Dict.keys d.
Proof.
  induction d as [|[k0 v0] d IH]; simpl; [done|].
  destruct (Z.eqb_spec k0 k); simpl; [done|]. by rewrite IH.
Qed.

Lemma keys_pop d k : Dict.keys (Dict.pop d k) = filter (λ x, x ≠ k) (Dict.keys d).
Proof.
  induction d as [|[k0 v0] d IH]; simpl; [done|].
  destruct (Z.eqb_spec k0 k); simpl.
  - rewrite filter_cons_False; [done|]. by intros [].
  - rewrite filter_cons_True by done. by rewrite IH.
Qed.

Lemma NoDup_keys_alter (f : V → V) d k :
  NoDup (Dict.keys d) → NoDup (Dict.keys (Dict.alter f d k)).
Proof. by rewrite keys_alter. Qed.

Lemma NoDup_keys_pop d k : NoDup (Dict.keys d) → NoDup (Dict.keys (Dict.pop d k)).
Proof. rewrite keys_pop. apply NoDup_filter. Qed.

Lemma elem_of_keys d k : k ∈ Dict.keys d ↔ is_Some (Dict.get d k).
Proof.
  induction d as [|[k0 v0] d IH]; simpl.
  - split; [by intros ?%elem_of_nil | by intros []].
  - rewrite elem_of_cons, IH.
    destruct (Z.eqb_spec k0 k) as [->|]; split; eauto.
    intros [?|?]; [congruence|done].
Qed.

Lemma NoDup_keys_set d k v :
  NoDup (Dict.keys d) → NoDup (Dict.keys (Dict.set d k v)).
Proof.
  rewrite keys_set. intros Hd. destruct (Dict.contains d k) eqn:E; [done|].
  apply NoDup_app. split_and!; [done| |apply NoDup_singleton].
  intros x Hx ->%list_elem_of_singleton.
  apply elem_of_keys, contains_true in Hx. congruence.
Qed.
End facts.
End DictFacts.

(** ** The store invariant is kept by every update of crud.py *)

Import DictFacts.

Lemma set_fake_missions_db_id s : set_fake_missions_db (fake_missions_db s) s = s.
Proof. by destruct s. Qed.

Lemma fetch_target_owned s k m l :
  wf s → Dict.get (fake_missions_db s) k = Some m → l ∈ Mission.targets m →
  crud.fetch_target s l = Some l.
Proof.
  intros Hwf Hm Hl. destruct (wf_owned s Hwf k m l Hm Hl) as (x & Hx & Hk).
  unfold crud.fetch_target. by rewrite Hx.
Qed.

Lemma omap_id_on {A} (f : A → option A) (l : list A) :
  (∀ x, x ∈ l → f x = Some x) → omap f l = l.
Proof.
  induction l as [|a l IH]; simpl; [done|]. intros Hf.
  rewrite Hf by left. f_equal. apply IH. intros. apply Hf. by right.
Qed.

Lemma refresh_targets_wf s k :
  wf s → crud.refresh_targets k s = (Return tt, s).
Proof.
  intros Hwf. unfold crud.refresh_targets, modify. f_equal.
  rewrite alter_id; [apply set_fake_missions_db_id|].
  intros m Hm. destruct m as [i c ci ts]; unfold Mission.with_targets; simpl.
  f_equal. apply omap_id_on. intros l Hl. by eapply fetch_target_owned.
Qed.

Lemma get_mission_wf s k :
  wf s → crud.get_mission k s = (Return (Dict.get (fake_missions_db s) k), s).
Proof.
  intros Hwf. unfold crud.get_mission, bind, gets, ret.
  destruct (Dict.get (fake_missions_db s) k) eqn:Hk; [|done].
  rewrite refresh_targets_wf by done. by rewrite Hk.
Qed.

Lemma refresh_each_wf s ks : wf s → crud.refresh_each ks s = (Return tt, s).
Proof.
  intros Hwf. induction ks as [|k ks IH]; simpl; [done|].
  unfold bind. by rewrite refresh_targets_wf.
Qed.

Lemma wf_reset : wf reset_db_state.
Proof. constructor; try done. simpl. split_and!; apply NoDup_nil_2. Qed.

Ltac wf_intro :=
  let H := fresh "Hwf" in
  intros H;
  destruct H as [Hnext (Hkc & Hkm & Hkt) Hcats Hmissions Htargets Howned
                 Hdisjoint Hflag Hclink Hmlink];
  simpl in *.

Lemma wf_new_cat s cat :
  Cat.id cat = next_cat_id s → Cat.mission_id cat = None → wf s →
  wf (set_next_cat_id (next_cat_id s + 1)
        (set_fake_cats_db (Dict.set (fake_cats_db s) (next_cat_id s) cat) s)).
Proof.
  destruct s as [h cs ms ts nc nm nt]. simpl. intros Hid Hnone. wf_intro.
  constructor; simpl; try done.
  - lia.
  - split_and!; try done. by apply NoDup_keys_set.
  - intros k c. rewrite get_set. case_decide.
    + intros [= <-]. lia.
    + intros ?%Hcats. lia.
  - intros c cat' k. rewrite get_set. case_decide; [congruence|]. eauto.
  - intros k m c Hm Hc Hl. destruct (Hmlink k m c Hm Hc Hl) as (cat' & Hcat' & Hk).
    exists cat'. split; [|done]. rewrite get_set. case_decide; [|done].
    apply Hcats in Hcat'. lia.
Qed.

Lemma wf_salary s c v :
  wf s →
  wf (set_fake_cats_db (Dict.alter (Cat.with_salary v) (fake_cats_db s) c) s).
Proof.
  destruct s as [h cs ms ts nc nm nt]. wf_intro.
  constructor; simpl; try done.
  - split_and!; try done. by apply NoDup_keys_alter.
  - intros k cat. rewrite get_alter. case_decide; [subst|by eauto].
    destruct (Dict.get cs k) eqn:E; [|done]. intros [= <-]. simpl. eauto.
  - intros k cat m. rewrite get_alter. case_decide; [subst|by eauto].
    destruct (Dict.get cs k) as [cat0|] eqn:E; [|done].
    intros [= <-]. simpl. eauto.
  - intros k m c' Hm Hc Hl. destruct (Hmlink k m c' Hm Hc Hl) as (cat' & Hcat' & Hk).
    rewrite get_alter. case_decide; [subst|by eauto].
    rewrite Hcat'. simpl. eexists. split; [done|]. done.
Qed.

Lemma wf_pop_cat s c :
  (∀ cat k m, Dict.get (fake_cats_db s) c = Some cat →
     Cat.mission_id cat = Some k → Dict.get (fake_missions_db s) k = Some m →
     Mission.is_complete m = true) →
  wf s → wf (set_fake_cats_db (Dict.pop (fake_cats_db s) c) s).
Proof.
  destruct s as [h cs ms ts nc nm nt]. simpl. intros Hfree. wf_intro.
  constructor; simpl; try done.
  - split_and!; try done. by apply NoDup_keys_pop.
  - intros k cat. rewrite get_pop. case_decide; [done|by eauto].
  - intros k cat m. rewrite get_pop. case_decide; [done|by eauto].
  - intros k m c' Hm Hc Hl. destruct (Hmlink k m c' Hm Hc Hl) as (cat' & Hcat' & Hk).
    rewrite get_pop. case_decide; [subst|by eauto].
    rewrite (Hfree _ _ _ Hcat' Hk Hm) in Hc. done.
Qed.

Lemma get_alter_Some {V} (f : V → V) (d : Dict.t V) k k' v' :
  Dict.get (Dict.alter f d k) k' = Some v' →
  ∃ v, Dict.get d k' = Some v ∧ v' = if decide (k = k') then f v else v.
Proof.
  rewrite get_alter. case_decide; [|by eauto].
  destruct (Dict.get d k') as [v|]; [|done]. intros [= <-]. eauto.
Qed.

Lemma wf_assign s k c m cat :
  Dict.get (fake_missions_db s) k = Some m → Mission.cat_id m = None →
  Dict.get (fake_cats_db s) c = Some cat →
  (∀ k' m', Cat.mission_id cat = Some k' →
     Dict.get (fake_missions_db s) k' = Some m' → Mission.is_complete m' = true) →
  wf s →
  wf (set_fake_cats_db
        (Dict.alter (Cat.with_mission_id (Some k)) (fake_cats_db s) c)
        (set_fake_missions_db
           (Dict.alter (Mission.with_cat_id (Some c)) (fake_missions_db s) k) s)).
Proof.
  destruct s as [h cs ms ts nc nm nt]. simpl. intros Hm Hnone Hcat Hfree. wf_intro.
  constructor; simpl; try done.
  - split_and!; try done; by apply NoDup_keys_alter.
  - intros k0 c0 (c1 & Hc1 & ->)%get_alter_Some.
    apply Hcats in Hc1. by case_decide; simpl.
  - intros k0 m0 (m1 & Hm1 & ->)%get_alter_Some.
    apply Hmissions in Hm1. by case_decide; simpl.
  - intros k0 m0 l (m1 & Hm1 & ->)%get_alter_Some Hl.
    apply (Howned k0 m1); [done|]. by case_decide; simpl.
  - intros k1 k2 m1 m2 l (m1' & Hm1 & ->)%get_alter_Some
      (m2' & Hm2 & ->)%get_alter_Some Hl1 Hl2.
    apply (Hdisjoint k1 k2 m1' m2' l); try done; by repeat case_decide.
  - intros k0 m0 (m1 & Hm1 & ->)%get_alter_Some.
    apply Hflag in Hm1. by case_decide; simpl.
  - intros c0 cat0 k0 (c1 & Hc1 & ->)%get_alter_Some Hk0.
    case_decide as Hc; simpl in Hk0; simplify_eq.
    + split; [apply Hmissions in Hm; lia|].
      intros m0 (m1 & Hm1 & ->)%get_alter_Some. by rewrite decide_True.
    + destruct (Hclink c0 c1 k0 Hc1 Hk0) as [Hlt Hback]. split; [done|].
      intros m0 (m1 & Hm1 & ->)%get_alter_Some. case_decide; [|by auto].
      subst. apply Hback in Hm. congruence.
  - intros k0 m0 c0 (m1 & Hm1 & ->)%get_alter_Some Hinc Hc0.
    rewrite get_alter. case_decide as Hk; simpl in *; simplify_eq.
    + rewrite decide_True by done. rewrite Hcat. simpl. eauto.
    + destruct (Hmlink k0 m1 c0 Hm1 Hinc Hc0) as (cat1 & Hcat1 & Hk1).
      case_decide; [subst|by eauto]. simplify_eq.
      rewrite (Hfree k0 m1 Hk1 Hm1) in Hinc. done.
Qed.

Lemma heap_alter_lookup_id (f : Target.t → Target.t) l (h : list Target.t) l0 x :
  (∀ y, Target.id (f y) = Target.id y) → h !! l0 = Some x →
  ∃ x', alter f l h !! l0 = Some x' ∧ Target.id x' = Target.id x.
Proof.
  intros Hf Hx. rewrite list_lookup_alter.
  case_decide; subst; rewrite Hx; simpl; eauto.
Qed.

Lemma is_complete_at_alter_ne (f : Target.t → Target.t) l (h : list Target.t) l0 :
  l ≠ l0 → is_complete_at (alter f l h) l0 = is_complete_at h l0.
Proof. intros. unfold is_complete_at. by rewrite list_lookup_alter_ne. Qed.

Lemma is_complete_at_alter_same (f : Target.t → Target.t) l (h : list Target.t) l0 :
  (∀ y, Target.is_complete (f y) = Target.is_complete y) →
  is_complete_at (alter f l h) l0 = is_complete_at h l0.
Proof.
  intros Hf. unfold is_complete_at. rewrite list_lookup_alter.
  case_decide; [subst|done]. destruct (h !! l0); simpl; [apply Hf|done].
Qed.

Lemma forallb_ext_elem {A} (f g : A → bool) (l : list A) :
  (∀ x, x ∈ l → f x = g x) → forallb f l = forallb g l.
Proof.
  induction l as [|a l IH]; simpl; [done|]. intros H.
  rewrite H by left. f_equal. apply IH. intros. apply H. by right.
Qed.

Lemma wf_heap_alter_frozen s l (f : Target.t → Target.t) :
  (∀ y, Target.id (f y) = Target.id y) →
  (∀ y, Target.is_complete (f y) = Target.is_complete y) →
  wf s → wf (set_heap (alter f l (heap s)) s).
Proof.
  destruct s as [h cs ms ts nc nm nt]. simpl. intros Hid Hc. wf_intro.
  constructor; simpl; try done.
  - intros k l0 Hl0. destruct (Htargets k l0 Hl0) as (Hlt & x & Hx & Hk).
    split; [done|].
    destruct (heap_alter_lookup_id f l h l0 x Hid Hx) as (x' & -> & Hx').
    exists x'. split; [done|congruence].
  - intros k m l0 Hm Hl0. destruct (Howned k m l0 Hm Hl0) as (x & Hx & Hk).
    destruct (heap_alter_lookup_id f l h l0 x Hid Hx) as (x' & -> & Hx').
    exists x'. split; [done|congruence].
  - intros k m Hm. rewrite (Hflag k m Hm). apply forallb_ext_elem.
    intros. by rewrite is_complete_at_alter_same.
Qed.

Lemma wf_complete_target s k m l :
  Dict.get (fake_missions_db s) k = Some m → Mission.is_complete m = false →
  l ∈ Mission.targets m → wf s →
  let s1 := set_heap (alter (Target.with_is_complete true) l (heap s)) s in
  wf (if forallb (is_complete_at (heap s1)) (Mission.targets m)
      then set_fake_missions_db
             (Dict.alter (Mission.with_is_complete true) (fake_missions_db s1) k) s1
      else s1).
Proof.
  destruct s as [h cs ms ts nc nm nt]. simpl. intros Hm Hinc Hl. wf_intro.
  set (h1 := alter (Target.with_is_complete true) l h).
  assert (Ht1 : ∀ k0 l0, Dict.get ts k0 = Some l0 →
            k0 < nt ∧ ∃ x, h1 !! l0 = Some x ∧ Target.id x = k0).
  { intros k0 l0 Hl0. destruct (Htargets k0 l0 Hl0) as (Hlt & x & Hx & Hk).
    split; [done|].
    destruct (heap_alter_lookup_id (Target.with_is_complete true) l h l0 x) as (x' & Hx1 & Hx'); try done.
    exists x'. split; [done|congruence]. }
  assert (Ho1 : ∀ k0 m0 l0, Dict.get ms k0 = Some m0 → l0 ∈ Mission.targets m0 →
            ∃ x, h1 !! l0 = Some x ∧ Dict.get ts (Target.id x) = Some l0).
  { intros k0 m0 l0 Hm0 Hl0. destruct (Howned k0 m0 l0 Hm0 Hl0) as (x & Hx & Hk).
    destruct (heap_alter_lookup_id (Target.with_is_complete true) l h l0 x) as (x' & Hx1 & Hx'); try done.
    exists x'. split; [done|congruence]. }
  assert (Hf1 : ∀ k0 m0, Dict.get ms k0 = Some m0 → k0 ≠ k →
            Mission.is_complete m0 = forallb (is_complete_at h1) (Mission.targets m0)).
  { intros k0 m0 Hm0 Hne. rewrite (Hflag k0 m0 Hm0). apply forallb_ext_elem.
    intros l0 Hl0. symmetry. apply is_complete_at_alter_ne. intros <-.
    apply Hne. by eapply Hdisjoint. }
  destruct (forallb (is_complete_at h1) (Mission.targets m)) eqn:Hall;
    constructor; simpl; try done.
  - split_and!; try done. by apply NoDup_keys_alter.
  - intros k0 m0 (m1 & Hm1 & ->)%get_alter_Some.
    apply Hmissions in Hm1. by case_decide; simpl.
  - intros k0 m0 l0 (m1 & Hm1 & ->)%get_alter_Some Hl0.
    apply (Ho1 k0 m1); [done|]. by case_decide.
  - intros k1 k2 m1 m2 l0 (m1' & Hm1 & ->)%get_alter_Some
      (m2' & Hm2 & ->)%get_alter_Some Hl1 Hl2.
    apply (Hdisjoint k1 k2 m1' m2' l0); try done; by repeat case_decide.
  - intros k0 m0 (m1 & Hm1 & ->)%get_alter_Some.
    case_decide; simpl; [simplify_eq; by rewrite Hall|].
    apply (Hf1 k0); [done|congruence].
  - intros c0 cat0 k0 Hc0 Hk0. destruct (Hclink c0 cat0 k0 Hc0 Hk0) as [Hlt Hback].
    split; [done|]. intros m0 (m1 & Hm1 & ->)%get_alter_Some.
    case_decide; simpl; auto.
  - intros k0 m0 c0 (m1 & Hm1 & ->)%get_alter_Some.
    case_decide; simpl; [done|]. by eauto.
  - intros k0 m0 Hm0. destruct (decide (k0 = k)) as [->|]; [|by apply (Hf1 k0)].
    simplify_eq. by rewrite Hinc, Hall.
Qed.

Lemma wf_clear_cat s c :
  (∀ k m, Dict.get (fake_missions_db s) k = Some m →
     Mission.is_complete m = false → Mission.cat_id m ≠ Some c) →
  wf s →
  wf (set_fake_cats_db (Dict.alter (Cat.with_mission_id None) (fake_cats_db s) c) s).
Proof.
  destruct s as [h cs ms ts nc nm nt]. simpl. intros Hfree. wf_intro.
  constructor; simpl; try done.
  - split_and!; try done. by apply NoDup_keys_alter.
  - intros k0 c0 (c1 & Hc1 & ->)%get_alter_Some.
    apply Hcats in Hc1. by case_decide; simpl.
  - intros c0 cat0 k0 (c1 & Hc1 & ->)%get_alter_Some.
    case_decide; simpl; [done|]. by eauto.
  - intros k0 m0 c0 Hm0 Hinc Hc0.
    destruct (Hmlink k0 m0 c0 Hm0 Hinc Hc0) as (cat1 & Hcat1 & Hk1).
    rewrite get_alter. case_decide; [subst|by eauto].
    by destruct (Hfree k0 m0).
Qed.

Lemma pop_targets_spec ls s :
  crud.pop_targets ls s
  = (Return tt, set_fake_targets_db (popped (heap s) (fake_targets_db s) ls) s).
Proof.
  revert s. induction ls as [|l ls IH]; intros s; simpl.
  - by destruct s.
  - unfold bind, modify. rewrite IH. destruct (heap s !! l); by destruct s.
Qed.

Lemma get_popped_Some h ls : ∀ d k v,
  Dict.get (popped h d ls) k = Some v
  ↔ Dict.get d k = Some v
    ∧ ∀ l x, l ∈ ls → h !! l = Some x → Target.id x ≠ k.
Proof.
  induction ls as [|l ls IH]; intros d k v; simpl.
  - split; [|by intros []]. intros Hd. split; [done|].
    by intros ?? ?%elem_of_nil.
  - rewrite IH. destruct (h !! l) as [x|] eqn:Hl.
    + rewrite get_pop. case_decide as Hk.
      * split; [by intros []|]. intros [_ Hno]. destruct (Hno l x); [left|done|done].
      * split; intros [Hd Hno]; (split; [done|]).
        -- intros l' x' [->|Hin]%elem_of_cons Hx'; [congruence|by eauto].
        -- intros l' x' Hin. apply Hno. by right.
    + split; intros [Hd Hno]; (split; [done|]).
      * intros l' x' [->|Hin]%elem_of_cons Hx'; [congruence|by eauto].
      * intros l' x' Hin. apply Hno. by right.
Qed.

Lemma get_popped_None h ls d l x :
  l ∈ ls → h !! l = Some x → Dict.get (popped h d ls) (Target.id x) = None.
Proof.
  intros Hl Hx. destruct (Dict.get _ _) as [v|] eqn:E; [|done].
  apply get_popped_Some in E as [_ Hno]. by destruct (Hno l x).
Qed.

Lemma NoDup_keys_popped h ls : ∀ d,
  NoDup (Dict.keys d) → NoDup (Dict.keys (popped h d ls)).
Proof.
  induction ls as [|l ls IH]; intros d Hd; simpl; [done|].
  apply IH. destruct (h !! l); [by apply NoDup_keys_pop|done].
Qed.

Lemma wf_delete_mission s k m :
  Dict.get (fake_missions_db s) k = Some m → wf s →
  wf (set_fake_missions_db (Dict.pop (fake_missions_db s) k)
        (set_fake_targets_db
           (popped (heap s) (fake_targets_db s) (Mission.targets m)) s)).
Proof.
  destruct s as [h cs ms ts nc nm nt]. simpl. intros Hm. wf_intro.
  constructor; simpl; try done.
  - split_and!; [done|by apply NoDup_keys_pop|by apply NoDup_keys_popped].
  - intros k0 m0. rewrite get_pop. case_decide; [done|by auto].
  - intros k0 l0 [Hl0 _]%get_popped_Some. by auto.
  - intros k0 m0 l0. rewrite get_pop. case_decide as Hk; [done|]. intros Hm0 Hl0.
    destruct (Howned k0 m0 l0 Hm0 Hl0) as (x & Hx & Hts). exists x. split; [done|].
    apply get_popped_Some. split; [done|]. intros l x' Hl Hx' Hid.
    destruct (Howned k m l Hm Hl) as (x1 & Hx1 & Hts1). simplify_eq.
    rewrite Hid in Hts1. simplify_eq. apply Hk. by eapply Hdisjoint.
  - intros k1 k2 m1 m2 l. rewrite !get_pop. repeat case_decide; try done. eauto.
  - intros k0 m0. rewrite get_pop. case_decide; [done|apply Hflag].
  - intros c0 cat0 k0 Hc0 Hk0. destruct (Hclink c0 cat0 k0 Hc0 Hk0) as [Hlt Hback].
    split; [done|]. intros m0. rewrite get_pop. case_decide; [done|by auto].
  - intros k0 m0 c0. rewrite get_pop. case_decide; [done|by eauto].
Qed.

Lemma create_targets_spec targets_in : ∀ db_targets s,
  crud.create_targets targets_in db_targets s
  = (Return (db_targets ++ seq (length (heap s)) (length targets_in)),
     set_next_target_id (next_target_id s + Z.of_nat (length targets_in))
       (set_fake_targets_db
          (registered (fake_targets_db s) (next_target_id s) (length (heap s))
                      (length targets_in))
          (set_heap (heap s ++ created (next_target_id s) targets_in) s))).
Proof.
  induction targets_in as [|tc tcs IH]; intros acc s.
  - destruct s; simpl. unfold ret, set_next_target_id, set_fake_targets_db, set_heap.
    simpl. by rewrite !app_nil_r, Z.add_0_r.
  - simpl. unfold bind, gets, modify, new_target, ret. simpl. rewrite IH.
    destruct s as [h cs ms ts nc nm nt]; simpl.
    unfold set_next_target_id, set_fake_targets_db, set_heap; simpl.
    rewrite length_app, <- !app_assoc. simpl.
    replace (length h + 1)%nat with (S (length h)) by lia.
    do 2 f_equal. lia.
Qed.

Lemma length_created n tcs : length (created n tcs) = length tcs.
Proof. revert n. induction tcs; intros; simpl; auto. Qed.

Lemma lookup_created tcs : ∀ n i x,
  created n tcs !! i = Some x →
  Target.id x = n + Z.of_nat i ∧ Target.is_complete x = false.
Proof.
  induction tcs as [|tc tcs IH]; intros n [|i] x; simpl; try done.
  - intros [= <-]. simpl. split; [lia|done].
  - intros Hx. apply IH in Hx. split; [lia|tauto].
Qed.

Lemma get_registered count : ∀ d n l k,
  Dict.get (registered d n l count) k
  = if decide (n ≤ k < n + Z.of_nat count)
    then Some (l + Z.to_nat (k - n))%nat else Dict.get d k.
Proof.
  induction count as [|c IH]; intros d n l k; simpl.
  - case_decide; [lia|done].
  - rewrite IH, get_set. repeat case_decide; try lia; try done.
    + f_equal. lia.
    + f_equal. subst. replace (k - k) with 0 by lia. simpl. lia.
Qed.

Lemma NoDup_keys_registered count : ∀ d n l,
  NoDup (Dict.keys d) → NoDup (Dict.keys (registered d n l count)).
Proof.
  induction count as [|c IH]; intros d n l Hd; simpl; [done|].
  by apply IH, NoDup_keys_set.
Qed.

Lemma is_complete_at_app_l (h h' : list Target.t) l :
  (l < length h)%nat → is_complete_at (h ++ h') l = is_complete_at h l.
Proof. intros. unfold is_complete_at. by rewrite lookup_app_l. Qed.

Lemma wf_create_mission s tcs :
  (1 ≤ length tcs ≤ 3)%nat → wf s →
  wf (set_next_mission_id (next_mission_id s + 1)
        (set_fake_missions_db
           (Dict.set (fake_missions_db s) (next_mission_id s)
              (Mission.mk (next_mission_id s) false None
                          (seq (length (heap s)) (length tcs))))
           (set_next_target_id (next_target_id s + Z.of_nat (length tcs))
              (set_fake_targets_db
                 (registered (fake_targets_db s) (next_target_id s)
                             (length (heap s)) (length tcs))
                 (set_heap (heap s ++ created (next_target_id s) tcs) s))))).
Proof.
  destruct s as [h cs ms ts nc nm nt]. simpl. intros Hlen. wf_intro.
  assert (Hold : ∀ k m l, Dict.get ms k = Some m → l ∈ Mission.targets m →
            (l < length h)%nat).
  { intros k m l Hm Hl. destruct (Howned k m l Hm Hl) as (x & Hx & _).
    by eapply lookup_lt_Some. }
  assert (Hnew : ∀ l, l ∈ seq (length h) (length tcs) →
            ∃ i x, l = (length h + i)%nat ∧ created nt tcs !! i = Some x).
  { intros l [Hge Hlt]%elem_of_seq. exists (l - length h)%nat.
    destruct (lookup_lt_is_Some_2 (created nt tcs) (l - length h)%nat) as [x Hx].
    { rewrite length_created. lia. }
    exists x. split; [lia|done]. }
  constructor; simpl; try done.
  - lia.
  - split_and!; [done|by apply NoDup_keys_set|by apply NoDup_keys_registered].
  - intros k m. rewrite get_set. case_decide.
    + intros [= <-]. simpl. rewrite length_seq. lia.
    + intros ?%Hmissions. lia.
  - intros k l. rewrite get_registered. case_decide as Hk.
    + intros [= <-]. split; [lia|].
      destruct (lookup_lt_is_Some_2 (created nt tcs) (Z.to_nat (k - nt))) as [x Hx].
      { rewrite length_created. lia. }
      exists x. rewrite lookup_app_r by lia.
      replace (length h + Z.to_nat (k - nt) - length h)%nat
        with (Z.to_nat (k - nt)) by lia.
      split; [done|]. apply lookup_created in Hx. lia.
    + intros Hl. destruct (Htargets k l Hl) as (Hlt & x & Hx & Hid).
      split; [lia|]. exists x. split; [|done].
      rewrite lookup_app_l; [done|]. by eapply lookup_lt_Some.
  - intros k m l. rewrite get_set. case_decide.
    + intros [= <-]. simpl. intros (i & x & -> & Hx)%Hnew.
      exists x. rewrite lookup_app_r by lia.
      replace (length h + i - length h)%nat with i by lia. split; [done|].
      pose proof (lookup_lt_Some _ _ _ Hx) as Hi. rewrite length_created in Hi.
      apply lookup_created in Hx as [-> _].
      rewrite get_registered. rewrite decide_True by lia. f_equal. lia.
    + intros Hm Hl. destruct (Howned k m l Hm Hl) as (x & Hx & Hts).
      exists x. split.
      * rewrite lookup_app_l; [done|]. by eapply lookup_lt_Some.
      * rewrite get_registered. pose proof (Htargets _ _ Hts) as [Hlt _].
        by rewrite decide_False by lia.
  - intros k1 k2 m1 m2 l. rewrite !get_set.
    repeat case_decide; try congruence.
    + intros [= <-] Hm2 [Hl _]%elem_of_seq Hl2. simpl in *.
      apply (Hold k2 m2 l Hm2) in Hl2. lia.
    + intros Hm1 [= <-] Hl1 [Hl _]%elem_of_seq. simpl in *.
      apply (Hold k1 m1 l Hm1) in Hl1. lia.
    + apply Hdisjoint.
  - intros k m. rewrite get_set. case_decide.
    + intros [= <-]. simpl. destruct (length tcs) as [|n] eqn:En; [lia|]. simpl.
      destruct (created nt tcs) as [|x xs] eqn:Ec.
      { apply (f_equal length) in Ec. rewrite length_created in Ec. simpl in Ec. lia. }
      unfold is_complete_at at 1. rewrite lookup_app_r by lia.
      replace (length h - length h)%nat with 0%nat by lia. simpl.
      assert (Hx : created nt tcs !! 0%nat = Some x) by by rewrite Ec.
      apply lookup_created in Hx as [_ ->]. done.
    + intros Hm. rewrite (Hflag k m Hm). apply forallb_ext_elem.
      intros l Hl. symmetry. apply is_complete_at_app_l. by eapply Hold.
  - intros c cat k Hc Hk. destruct (Hclink c cat k Hc Hk) as [Hlt Hback].
    split; [lia|]. intros m. rewrite get_set. case_decide; [lia|apply Hback].
  - intros k m c. rewrite get_set. case_decide.
    + by intros [= <-].
    + apply Hmlink.
Qed.

(** ** What each function of crud.py does on a store that satisfies the invariant *)

Lemma set_fake_cats_db_id s : set_fake_cats_db (fake_cats_db s) s = s.
Proof. by destruct s. Qed.

Ltac mred := unfold bind, gets, modify, ret, raise; simpl.

Lemma delete_cat_spec s c :
  wf s →
  crud.delete_cat c s
  = match Dict.get (fake_cats_db s) c with
    | None => (Return None, s)
    | Some cat =>
        if on_active_mission s cat
        then (Raise (mkHTTPException HTTP_400_BAD_REQUEST), s)
        else (Return (Some cat),
              set_fake_cats_db (Dict.pop (fake_cats_db s) c) s)
    end.
Proof.
  intros Hwf. unfold crud.delete_cat, on_active_mission. mred.
  destruct (Dict.get (fake_cats_db s) c) as [cat|] eqn:Hc; simpl.
  - destruct (Cat.mission_id cat) as [k|]; simpl; [|by rewrite Hc].
    rewrite get_mission_wf by done.
    destruct (Dict.get (fake_missions_db s) k) as [m|]; simpl; [|by rewrite Hc].
    destruct (Mission.is_complete m); simpl; [by rewrite Hc|done].
  - rewrite Hc, pop_absent by done. by rewrite set_fake_cats_db_id.
Qed.

Lemma assign_cat_to_mission_spec s k c :
  wf s →
  crud.assign_cat_to_mission k c s
  = match Dict.get (fake_missions_db s) k, Dict.get (fake_cats_db s) c with
    | None, _ | Some _, None => (Raise (mkHTTPException HTTP_404_NOT_FOUND), s)
    | Some m, Some cat =>
        match Mission.cat_id m with
        | Some _ => (Raise (mkHTTPException HTTP_409_CONFLICT), s)
        | None =>
            if on_active_mission s cat
            then (Raise (mkHTTPException HTTP_409_CONFLICT), s)
            else
              (Return (Some (Mission.with_cat_id (Some c) m)),
               set_fake_cats_db
                 (Dict.alter (Cat.with_mission_id (Some k)) (fake_cats_db s) c)
                 (set_fake_missions_db
                    (Dict.alter (Mission.with_cat_id (Some c))
                                (fake_missions_db s) k) s))
        end
    end.
Proof.
  intros Hwf. unfold crud.assign_cat_to_mission, crud.get_cat, on_active_mission.
  unfold bind at 1. rewrite get_mission_wf by done. mred.
  destruct (Dict.get (fake_missions_db s) k) as [m|] eqn:Hm; simpl; [|done].
  destruct (Dict.get (fake_cats_db s) c) as [cat|] eqn:Hc; simpl; [|done].
  destruct (Mission.cat_id m); simpl; [done|].
  assert (Hget : Dict.get (Dict.alter (Mission.with_cat_id (Some c))
                    (fake_missions_db s) k) k
                 = Some (Mission.with_cat_id (Some c) m)).
  { by rewrite get_alter, decide_True, Hm. }
  destruct (Cat.mission_id cat) as [k'|]; simpl; [|by rewrite Hget].
  rewrite get_mission_wf by done.
  destruct (Dict.get (fake_missions_db s) k') as [m'|]; simpl; [|by rewrite Hget].
  destruct (Mission.is_complete m'); simpl; [by rewrite Hget|done].
Qed.

Lemma py_in_wf s k m t l :
  wf s → Dict.get (fake_missions_db s) k = Some m →
  Dict.get (fake_targets_db s) t = Some l →
  py_in (heap s) l (Mission.targets m) = bool_decide (l ∈ Mission.targets m).
Proof.
  intros Hwf Hm Ht. unfold py_in.
  destruct (wf_targets s Hwf t l Ht) as (_ & x & Hx & Hid).
  apply eq_true_iff_eq. rewrite existsb_exists, bool_decide_eq_true. split.
  - intros (l' & Hl'%list_elem_of_In & Heq).
    destruct (wf_owned s Hwf k m l' Hm Hl') as (x' & Hx' & Hts).
    apply orb_true_iff in Heq as [->%Nat.eqb_eq|Heq%bool_decide_eq_true]; [done|].
    rewrite Hx, Hx' in Heq. injection Heq as ->. rewrite Hid, Ht in Hts. by simplify_eq.
  - intros Hl. exists l. split; [by apply list_elem_of_In|].
    by rewrite Nat.eqb_refl.
Qed.

Lemma update_target_notes_spec s k t notes :
  wf s →
  crud.update_target_notes k t notes s
  = match Dict.get (fake_missions_db s) k with
    | None => (Raise (mkHTTPException HTTP_404_NOT_FOUND), s)
    | Some m =>
        if Mission.is_complete m
        then (Raise (mkHTTPException HTTP_400_BAD_REQUEST), s)
        else
          match Dict.get (fake_targets_db s) t with
          | None => (Raise (mkHTTPException HTTP_404_NOT_FOUND), s)
          | Some l =>
              if negb (bool_decide (l ∈ Mission.targets m))
              then (Raise (mkHTTPException HTTP_404_NOT_FOUND), s)
              else if is_complete_at (heap s) l
              then (Raise (mkHTTPException HTTP_400_BAD_REQUEST), s)
              else
                (Return l,
                 set_heap (alter (Target.with_notes (Some notes)) l (heap s)) s)
          end
    end.
Proof.
  intros Hwf. unfold crud.update_target_notes.
  unfold bind at 1. rewrite get_mission_wf by done. mred.
  destruct (Dict.get (fake_missions_db s) k) as [m|] eqn:Hm; simpl; [|done].
  destruct (Mission.is_complete m); simpl; [done|].
  destruct (Dict.get (fake_targets_db s) t) as [l|] eqn:Ht; simpl; [|done].
  rewrite (py_in_wf s k m t l) by done.
  destruct (bool_decide (l ∈ Mission.targets m)); simpl; [|done].
  by destruct (is_complete_at (heap s) l).
Qed.

Lemma mark_target_complete_spec s k t :
  wf s →
  crud.mark_target_complete k t s
  = match Dict.get (fake_missions_db s) k with
    | None => (Raise (mkHTTPException HTTP_404_NOT_FOUND), s)
    | Some m =>
        if Mission.is_complete m
        then (Raise (mkHTTPException HTTP_400_BAD_REQUEST), s)
        else
          match Dict.get (fake_targets_db s) t with
          | None => (Raise (mkHTTPException HTTP_404_NOT_FOUND), s)
          | Some l =>
              if negb (bool_decide (l ∈ Mission.targets m))
              then (Raise (mkHTTPException HTTP_404_NOT_FOUND), s)
              else if is_complete_at (heap s) l
              then (Return l, s)
              else (Return l, completed s k m l)
          end
    end.
Proof.
  intros Hwf. unfold crud.mark_target_complete, completed.
  unfold bind at 1. rewrite get_mission_wf by done. mred.
  destruct (Dict.get (fake_missions_db s) k) as [m|] eqn:Hm; simpl; [|done].
  destruct (Mission.is_complete m); simpl; [done|].
  destruct (Dict.get (fake_targets_db s) t) as [l|] eqn:Ht; simpl; [|done].
  rewrite (py_in_wf s k m t l) by done.
  destruct (bool_decide (l ∈ Mission.targets m)); simpl; [|done].
  destruct (is_complete_at (heap s) l); simpl; [done|].
  destruct (forallb _ _); simpl; [|done].
  destruct (Mission.cat_id m) as [c|]; simpl; [|done].
  by destruct (negb (c =? 0) && Dict.contains (fake_cats_db s) c).
Qed.

Lemma delete_mission_spec s k :
  wf s →
  crud.delete_mission k s
  = match Dict.get (fake_missions_db s) k with
    | None => (Return None, s)
    | Some m =>
        if delete_forbidden s k m
        then (Raise (mkHTTPException HTTP_400_BAD_REQUEST), s)
        else
          (Return (Some m),
           set_fake_missions_db (Dict.pop (fake_missions_db s) k)
             (set_fake_targets_db
                (popped (heap s) (fake_targets_db s) (Mission.targets m)) s))
    end.
Proof.
  intros Hwf. unfold crud.delete_mission, crud.get_cat, delete_forbidden.
  unfold bind at 1. rewrite get_mission_wf by done.
  destruct (Dict.get (fake_missions_db s) k) as [m|] eqn:Hm; simpl; [|done].
  assert (Hrest : ∀ u : unit,
    (crud.pop_targets (Mission.targets m);;
     popped <- gets (λ s0, Dict.get (fake_missions_db s0) k);;
     modify (λ s0, set_fake_missions_db (Dict.pop (fake_missions_db s0) k) s0);;
     ret popped)%M s
    = (Return (Some m),
       set_fake_missions_db (Dict.pop (fake_missions_db s) k)
         (set_fake_targets_db
            (popped (heap s) (fake_targets_db s) (Mission.targets m)) s))).
  { intros _. unfold bind at 1. rewrite pop_targets_spec. mred. by rewrite Hm. }
  unfold bind at 1.
  destruct (Mission.cat_id m) as [c|]; simpl; [|apply (Hrest tt)].
  mred. destruct (Dict.get (fake_cats_db s) c) as [cat|]; simpl; [|apply (Hrest tt)].
  destruct (opt_int_eqb (Cat.mission_id cat) k && negb (Mission.is_complete m));
    simpl; [done|apply (Hrest tt)].
Qed.

Lemma create_mission_spec s mission_in :
  crud.create_mission mission_in s
  = let n := length (MissionCreate.targets mission_in) in
    let db_mission :=
      Mission.mk (next_mission_id s) false None (seq (length (heap s)) n) in
    (Return db_mission,
     set_next_mission_id (next_mission_id s + 1)
       (set_fake_missions_db
          (Dict.set (fake_missions_db s) (next_mission_id s) db_mission)
          (set_next_target_id (next_target_id s + Z.of_nat n)
             (set_fake_targets_db
                (registered (fake_targets_db s) (next_target_id s)
                            (length (heap s)) n)
                (set_heap (heap s ++ created (next_target_id s)
                                       (MissionCreate.targets mission_in)) s))))).
Proof.
  unfold crud.create_mission. unfold bind at 1. rewrite create_targets_spec.
  by destruct s.
Qed.

(** ** Every request keeps the store invariant *)

Lemma snd_bind_pure {A B} (m : M A) (k : A → M B) s :
  (∀ a s', snd (k a s') = s') → snd (bind m k s) = snd (m s).
Proof. intros Hk. unfold bind. destruct (m s) as [[a|e] s']; simpl; auto. Qed.

Lemma wf_completed s k m l :
  Dict.get (fake_missions_db s) k = Some m → Mission.is_complete m = false →
  l ∈ Mission.targets m → wf s → wf (completed s k m l).
Proof.
  intros Hm Hinc Hl Hwf. pose proof (wf_complete_target s k m l Hm Hinc Hl Hwf) as H.
  unfold completed. cbv zeta in *.
  destruct (forallb _ _) eqn:Hall; [|done].
  destruct (Mission.cat_id m) as [c|] eqn:Hc; [|done].
  destruct (negb (c =? 0) && Dict.contains _ c) eqn:Hguard; [|done].
  apply wf_clear_cat; [|done]. simpl.
  intros k0 m0 (m1 & Hm1 & ->)%get_alter_Some Hinc0 Hc0.
  case_decide as Hk; simpl in *; [done|].
  destruct (wf_mission_link _ Hwf k0 m1 c Hm1 Hinc0 Hc0) as (cat & Hcat & Hk0).
  destruct (wf_mission_link _ Hwf k m c Hm Hinc Hc) as (cat' & Hcat' & Hk').
  congruence.
Qed.

Lemma create_cat_wf s cat_in : wf s → wf (snd (crud.create_cat cat_in s)).
Proof.
  intros Hwf. unfold crud.create_cat. mred.
  destruct (existsb _ _); simpl; [done|]. by apply (wf_new_cat s).
Qed.

Lemma update_cat_salary_wf s c v : wf s → wf (snd (crud.update_cat_salary c v s)).
Proof.
  intros Hwf. unfold crud.update_cat_salary. mred.
  destruct (Dict.contains _ _); simpl; [|done]. by apply wf_salary.
Qed.

Lemma delete_cat_wf s c : wf s → wf (snd (crud.delete_cat c s)).
Proof.
  intros Hwf. rewrite delete_cat_spec by done.
  destruct (Dict.get (fake_cats_db s) c) as [cat|] eqn:Hc; [|done].
  destruct (on_active_mission s cat) eqn:Hact; simpl; [done|].
  apply wf_pop_cat; [|done]. intros cat' k m Hc' Hk Hm. simplify_eq.
  unfold on_active_mission in Hact. rewrite Hk, Hm in Hact.
  by destruct (Mission.is_complete m).
Qed.

Lemma create_mission_wf s mission_in :
  MissionCreate.valid mission_in = true → wf s →
  wf (snd (crud.create_mission mission_in s)).
Proof.
  intros Hvalid Hwf. rewrite create_mission_spec. simpl.
  apply wf_create_mission; [|done]. unfold MissionCreate.valid in Hvalid.
  apply andb_true_iff in Hvalid as [?%Nat.leb_le ?%Nat.leb_le]. lia.
Qed.

Lemma assign_cat_to_mission_wf s k c :
  wf s → wf (snd (crud.assign_cat_to_mission k c s)).
Proof.
  intros Hwf. rewrite assign_cat_to_mission_spec by done.
  destruct (Dict.get (fake_missions_db s) k) as [m|] eqn:Hm; [|done].
  destruct (Dict.get (fake_cats_db s) c) as [cat|] eqn:Hc; [|done].
  destruct (Mission.cat_id m) eqn:Hnone; [done|].
  destruct (on_active_mission s cat) eqn:Hact; simpl; [done|].
  eapply wf_assign; try done. intros k' m' Hk' Hm'.
  unfold on_active_mission in Hact. rewrite Hk', Hm' in Hact.
  by destruct (Mission.is_complete m').
Qed.

Lemma update_target_notes_wf s k t notes :
  wf s → wf (snd (crud.update_target_notes k t notes s)).
Proof.
  intros Hwf. rewrite update_target_notes_spec by done.
  destruct (Dict.get (fake_missions_db s) k) as [m|]; [|done].
  destruct (Mission.is_complete m); [done|].
  destruct (Dict.get (fake_targets_db s) t) as [l|]; [|done].
  destruct (negb _); [done|]. destruct (is_complete_at _ _); [done|].
  simpl. by apply wf_heap_alter_frozen.
Qed.

Lemma mark_target_complete_wf s k t :
  wf s → wf (snd (crud.mark_target_complete k t s)).
Proof.
  intros Hwf. rewrite mark_target_complete_spec by done.
  destruct (Dict.get (fake_missions_db s) k) as [m|] eqn:Hm; [|done].
  destruct (Mission.is_complete m) eqn:Hinc; [done|].
  destruct (Dict.get (fake_targets_db s) t) as [l|]; [|done].
  destruct (bool_decide (l ∈ Mission.targets m)) eqn:Hl; [|done].
  apply bool_decide_eq_true in Hl. simpl.
  destruct (is_complete_at _ _); [done|]. simpl. by apply wf_completed.
Qed.

Lemma delete_mission_wf s k : wf s → wf (snd (crud.delete_mission k s)).
Proof.
  intros Hwf. rewrite delete_mission_spec by done.
  destruct (Dict.get (fake_missions_db s) k) as [m|] eqn:Hm; [|done].
  destruct (delete_forbidden s k m); [done|]. simpl. by apply wf_delete_mission.
Qed.

Lemma get_missions_wf s skip limit :
  wf s → snd (crud.get_missions skip limit s) = s.
Proof. intros Hwf. unfold crud.get_missions. mred. by rewrite refresh_each_wf. Qed.

Lemma dump_target_pure l s : snd (dump_target l s) = s.
Proof. unfold dump_target. mred. by destruct (heap s !! l). Qed.

Lemma dump_mission_pure m s : snd (dump_mission m s) = s.
Proof. done. Qed.

Lemma dump_missions_pure ms : ∀ s, snd (missions.dump_missions ms s) = s.
Proof.
  induction ms as [|m ms IH]; intros s; simpl; [done|]. mred.
  specialize (IH s). by destruct (missions.dump_missions ms s) as [[?|?] ?].
Qed.

Lemma step_wf r s : wf s → wf (step r s).
Proof.
  intros Hwf. destruct r; simpl.
  - unfold cats.create_spy_cat, request_body, validate_cat_breed_from_payload.
    unfold bind at 1. destruct (CatCreate.valid body); [|done]. simpl.
    unfold bind at 1.
    destruct (breed_lookup api (CatCreate.breed body)); [done|].
    by apply create_cat_wf.
  - done.
  - unfold cats.get_spy_cat, crud.get_cat. mred.
    by destruct (Dict.get _ _).
  - unfold cats.update_spy_cat_salary, request_body.
    unfold bind at 1. destruct (CatUpdate.valid body); [|done]. simpl.
    destruct (CatUpdate.salary body); [|done].
    rewrite snd_bind_pure; [by apply update_cat_salary_wf|]. by intros [].
  - unfold cats.delete_spy_cat.
    rewrite snd_bind_pure; [by apply delete_cat_wf|]. by intros [].
  - unfold missions.create_new_mission, request_body.
    unfold bind at 1. destruct (MissionCreate.valid body) eqn:Hvalid; [|done].
    simpl.
    rewrite snd_bind_pure; [by apply create_mission_wf|done].
  - unfold missions.list_all_missions.
    rewrite snd_bind_pure; [by rewrite get_missions_wf|].
    intros. apply dump_missions_pure.
  - unfold missions.get_single_mission. unfold bind.
    rewrite get_mission_wf by done. by destruct (Dict.get _ _).
  - unfold missions.assign_cat_to_a_mission.
    rewrite snd_bind_pure; [by apply assign_cat_to_mission_wf|]. by intros [].
  - unfold missions.update_mission_target_notes.
    rewrite snd_bind_pure; [by apply update_target_notes_wf|].
    intros. apply dump_target_pure.
  - unfold missions.mark_mission_target_complete.
    rewrite snd_bind_pure; [by apply mark_target_complete_wf|].
    intros. apply dump_target_pure.
  - unfold missions.delete_a_mission.
    rewrite snd_bind_pure; [by apply delete_mission_wf|]. by intros [].
Qed.

Lemma run_wf rs : ∀ s, wf s → wf (run rs s).
Proof.
  induction rs as [|r rs IH]; intros s Hwf; simpl; [done|].
  by apply IH, step_wf.
Qed.

Lemma reachable_wf s : reachable s → wf s.
Proof. intros [rs <-]. apply run_wf, wf_reset. Qed.

Lemma reachable_step r s : reachable s → reachable (step r s).
Proof.
  intros [rs <-]. exists (rs ++ [r]). unfold run. by rewrite fold_left_app.
Qed.

(** ** The scenarios of the spec, run on the model *)

(** What links survive in a reachable store: a Cat's mission reference that
    names a stored Mission is answered by that Mission's cat reference, and
    the cat reference of an incomplete Mission names a stored Cat that points
    back. *)
Lemma reachable_links s :
  reachable s →
  (∀ c cat k m,
     Dict.get (fake_cats_db s) c = Some cat → Cat.mission_id cat = Some k →
     Dict.get (fake_missions_db s) k = Some m → Mission.cat_id m = Some c)
  ∧ (∀ k m c,
       Dict.get (fake_missions_db s) k = Some m →
       Mission.is_complete m = false → Mission.cat_id m = Some c →
       ∃ cat, Dict.get (fake_cats_db s) c = Some cat
              ∧ Cat.mission_id cat = Some k).
Proof.
  intros Hwf%reachable_wf. split.
  - intros c cat k m Hc Hk. destruct (wf_cat_link s Hwf c cat k Hc Hk) as [_ Hback].
    apply Hback.
  - apply (wf_mission_link s Hwf).
Qed.

(** A breed that the reply does not list: the [HTTPException] with status 400
    is raised inside the [try] block and the last [except] clause turns it
    into a 500. *)
Lemma unknown_breed_is_500 s names body :
  existsb (λ b, String.eqb (lower b) (lower (CatCreate.breed body))) names = false →
  validate_cat_breed_from_payload (breeds_data names) body s
  = (Raise (mkHTTPException HTTP_500_INTERNAL_SERVER_ERROR), s).
Proof.
  intros Hno. unfold validate_cat_breed_from_payload, breed_lookup.
  by rewrite Hno.
Qed.

(** "Create Mission with targets Alice, Bob: id 1, not complete.  Complete
    target 1: the target is complete, the mission is not.  Complete target 2:
    the mission is complete.  Updating notes on either target afterwards is
    refused." *)
Example scenario_two_targets :
  let s0 := step (POST_missions two_targets) reset_db_state in
  let s1 := step (PATCH_target_complete 1 1) s0 in
  let s2 := step (PATCH_target_complete 1 2) s1 in
  Dict.get (fake_missions_db s0) 1 = Some (Mission.mk 1 false None [0%nat; 1%nat])
  ∧ fst (missions.mark_mission_target_complete 1 1 s0)
    = Return (Target.mk 1 "Alice" "FR" None true)
  ∧ Dict.get (fake_missions_db s1) 1 = Some (Mission.mk 1 false None [0%nat; 1%nat])
  ∧ Dict.get (fake_missions_db s2) 1 = Some (Mission.mk 1 true None [0%nat; 1%nat])
  ∧ fst (missions.update_mission_target_notes 1 1 "late" s2) = Raise Forbidden
  ∧ fst (missions.update_mission_target_notes 1 2 "late" s2) = Raise Forbidden.
Proof. repeat split; vm_compute; reflexivity. Qed.

(** "Cat A assigned to Mission M1 (incomplete): deleting Cat A is refused.
    Complete M1: Cat A's mission link clears.  Delete Cat A: succeeds." *)
Example scenario_cat_on_mission :
  let s0 := run tom_on_mission reset_db_state in
  let s1 := step (PATCH_target_complete 1 2) s0 in
  fst (cats.delete_spy_cat 1 s0) = Raise Forbidden
  ∧ (Cat.mission_id <$> Dict.get (fake_cats_db s0) 1) = Some (Some 1)
  ∧ (Cat.mission_id <$> Dict.get (fake_cats_db s1) 1) = Some None
  ∧ fst (cats.delete_spy_cat 1 s1) = Return tt
  ∧ Dict.get (fake_cats_db (step (DELETE_cat 1) s1)) 1 = None.
Proof. repeat split; vm_compute; reflexivity. Qed.

(** Slices as Python takes them. *)
Example py_slice_examples :
  py_slice [1; 2; 3; 4; 5] 1 3 = [2; 3]
  ∧ py_slice [1; 2; 3; 4; 5] 3 100 = [4; 5]
  ∧ py_slice [1; 2; 3; 4; 5] 7 9 = []
  ∧ py_slice [1; 2; 3; 4; 5] (-2) 5 = [4; 5]
  ∧ py_slice [1; 2; 3; 4; 5] 2 1 = [].
Proof. repeat split; vm_compute; reflexivity. Qed.

(** ** The claims of the spec *)

Lemma resolve_all (h : list Target.t) (ls : list nat) :
  (∀ l, l ∈ ls → is_Some (h !! l)) →
  ∃ xs, Forall2 (λ l x, h !! l = Some x) ls xs
        ∧ forallb (is_complete_at h) ls = forallb Target.is_complete xs.
Proof.
  induction ls as [|l ls IH]; intros Hls.
  - exists []. by split; [constructor|].
  - destruct (Hls l) as [x Hx]; [left|].
    destruct IH as (xs & Hxs & Heq). { intros. apply Hls. by right. }
    exists (x :: xs). split; [by constructor|].
    simpl. unfold is_complete_at at 1. by rewrite Hx, Heq.
Qed.

Lemma wf_mission_flag_derived s : wf s → mission_flag_derived s.
Proof.
  intros Hwf k m Hm.
  destruct (resolve_all (heap s) (Mission.targets m)) as (xs & Hxs & Heq).
  { intros l Hl. destruct (wf_owned s Hwf k m l Hm Hl) as (x & -> & _). eauto. }
  exists xs. split; [done|]. by rewrite (wf_flag s Hwf k m Hm).
Qed.

(** C1. In every reachable store, the completion flag of every stored
    Mission equals the conjunction of the completion flags of the Targets it
    owns, and the store that any request leaves behind satisfies this again:
    no request sets the flag by another rule. *)
Theorem C1_mission_flag_is_conjunction (s : Store) :
  reachable s →
  mission_flag_derived s ∧ ∀ r : Request, mission_flag_derived (step r s).
Proof.
  intros Hs. split; [by apply wf_mission_flag_derived, reachable_wf|].
  intros r. by apply wf_mission_flag_derived, step_wf, reachable_wf.
Qed.

Lemma C1_witness :
  mission_flag_derived (run one_done reset_db_state)
  ∧ ∀ r : Request, mission_flag_derived (step r (run one_done reset_db_state)).
Proof. apply C1_mission_flag_is_conjunction. by exists one_done. Defined.

Lemma owns_lookup s k m t x :
  wf s → Dict.get (fake_missions_db s) k = Some m → owns s m t x →
  ∃ l, Dict.get (fake_targets_db s) t = Some l ∧ l ∈ Mission.targets m
       ∧ heap s !! l = Some x.
Proof.
  intros Hwf Hm (l & Hl & Hx & <-). exists l.
  destruct (wf_owned s Hwf k m l Hm Hl) as (x' & Hx' & Hts). by simplify_eq.
Qed.

Lemma lookup_owns s k m t l :
  wf s → Dict.get (fake_missions_db s) k = Some m →
  Dict.get (fake_targets_db s) t = Some l → l ∈ Mission.targets m →
  ∃ x, heap s !! l = Some x ∧ owns s m t x.
Proof.
  intros Hwf Hm Ht Hl. destruct (wf_targets s Hwf t l Ht) as (_ & x & Hx & Hid).
  exists x. split; [done|]. by exists l.
Qed.

Lemma forallb_true_elem {A} (f : A → bool) (l : list A) :
  forallb f l = true ↔ ∀ x, x ∈ l → f x = true.
Proof.
  rewrite forallb_forall. split; intros H x Hx; apply H; by apply list_elem_of_In.
Qed.

Lemma incomplete_target_incomplete_mission s k m l :
  wf s → Dict.get (fake_missions_db s) k = Some m → l ∈ Mission.targets m →
  is_complete_at (heap s) l = false → Mission.is_complete m = false.
Proof.
  intros Hwf Hm Hl Hinc. rewrite (wf_flag s Hwf k m Hm).
  destruct (forallb _ _) eqn:Hall; [|done].
  rewrite forallb_true_elem in Hall. by rewrite (Hall l Hl) in Hinc.
Qed.

(** C3. When the one Target of a Mission that is still incomplete is marked
    complete, the call succeeds, the Mission's completion flag becomes true,
    its own cat reference stays as it was, and the Cat linked to the Mission
    (from either side of the link) has no mission reference any more. *)
Theorem C3_last_target_completes_mission
    (s : Store) (k : Z) (m : Mission.t) (t : Z) (x : Target.t) :
  reachable s →
  Dict.get (fake_missions_db s) k = Some m →
  owns s m t x → Target.is_complete x = false →
  (∀ t' x', owns s m t' x' → t' ≠ t → Target.is_complete x' = true) →
  ∃ s',
    missions.mark_mission_target_complete k t s
    = (Return (Target.with_is_complete true x), s')
    ∧ (∃ m', Dict.get (fake_missions_db s') k = Some m'
             ∧ Mission.is_complete m' = true
             ∧ Mission.cat_id m' = Mission.cat_id m)
    ∧ (∀ c cat, Dict.get (fake_cats_db s) c = Some cat →
         Mission.cat_id m = Some c ∨ Cat.mission_id cat = Some k →
         ∃ cat', Dict.get (fake_cats_db s') c = Some cat'
                 ∧ Cat.mission_id cat' = None).
Proof.
  intros Hwf%reachable_wf Hm Hx Hinc Hrest.
  destruct (owns_lookup s k m t x Hwf Hm Hx) as (l & Ht & Hl & Hlx).
  assert (Hat : is_complete_at (heap s) l = false).
  { unfold is_complete_at. by rewrite Hlx. }
  pose proof (incomplete_target_incomplete_mission s k m l Hwf Hm Hl Hat) as Hminc.
  exists (completed s k m l).
  unfold missions.mark_mission_target_complete. unfold bind at 1.
  rewrite mark_target_complete_spec, Hm, Hminc, Ht by done.
  rewrite bool_decide_eq_true_2 by done. simpl. rewrite Hat.
  assert (Hall : forallb (is_complete_at
             (alter (Target.with_is_complete true) l (heap s)))
             (Mission.targets m) = true).
  { apply forallb_true_elem. intros l' Hl'.
    destruct (decide (l' = l)) as [->|Hne].
    - unfold is_complete_at. by rewrite list_lookup_alter_eq, Hlx.
    - rewrite is_complete_at_alter_ne by done.
      destruct (wf_owned s Hwf k m l' Hm Hl') as (x' & Hx' & Hts').
      unfold is_complete_at. rewrite Hx'. apply (Hrest (Target.id x')).
      + by exists l'.
      + intros Heq. rewrite Heq in Hts'. congruence. }
  assert (Hheap : heap (completed s k m l)
                  = alter (Target.with_is_complete true) l (heap s)).
  { unfold completed. simpl. rewrite Hall.
    destruct (Mission.cat_id m) as [c|]; [|done].
    by destruct (negb (c =? 0) && Dict.contains (fake_cats_db s) c). }
  assert (Hms : fake_missions_db (completed s k m l)
                = Dict.alter (Mission.with_is_complete true) (fake_missions_db s) k).
  { unfold completed. simpl. rewrite Hall.
    destruct (Mission.cat_id m) as [c|]; [|done].
    by destruct (negb (c =? 0) && Dict.contains (fake_cats_db s) c). }
  split_and!.
  - unfold dump_target. mred. by rewrite Hheap, list_lookup_alter_eq, Hlx.
  - exists (Mission.with_is_complete true m).
    by rewrite Hms, get_alter, decide_True, Hm.
  - intros c cat Hc Hlink.
    assert (Hmc : Mission.cat_id m = Some c).
    { destruct Hlink as [|Hk]; [done|].
      by destruct (wf_cat_link s Hwf c cat k Hc Hk) as [_ ->]. }
    exists (Cat.with_mission_id None cat). split; [|done].
    unfold completed. simpl. rewrite Hall, Hmc.
    unfold Dict.contains. rewrite Hc.
    destruct (wf_cats s Hwf c cat Hc) as [_ Hpos].
    destruct (Z.eqb_spec c 0); [lia|]. simpl.
    by rewrite get_alter, decide_True, Hc.
Qed.

Lemma C3_witness :
  ∃ s',
    missions.mark_mission_target_complete 1 2 (run tom_on_mission reset_db_state)
    = (Return (Target.mk 2 "Bob" "DE" None true), s')
    ∧ (∃ m', Dict.get (fake_missions_db s') 1 = Some m'
             ∧ Mission.is_complete m' = true
             ∧ Mission.cat_id m' = Some 1)
    ∧ (∀ c cat,
         Dict.get (fake_cats_db (run tom_on_mission reset_db_state)) c = Some cat →
         Some 1 = Some c ∨ Cat.mission_id cat = Some 1 →
         ∃ cat', Dict.get (fake_cats_db s') c = Some cat'
                 ∧ Cat.mission_id cat' = None).
Proof.
  apply (C3_last_target_completes_mission
           (run tom_on_mission reset_db_state) 1
           (Mission.mk 1 false (Some 1) [0%nat; 1%nat]) 2
           (Target.mk 2 "Bob" "DE" None false)).
  - by exists tom_on_mission.
  - reflexivity.
  - exists 1%nat. split_and!; [|reflexivity|reflexivity].
    apply list_elem_of_In. simpl. auto.
  - reflexivity.
  - intros t' x' (l & Hl & Hx & Hid) Hne. apply list_elem_of_In in Hl. simpl in Hl.
    destruct Hl as [<-|[<-|[]]]; vm_compute in Hx; injection Hx as <-.
    + reflexivity.
    + by destruct Hne.
Defined.

(** C2. The code at the failing input: a Cat assigned to a Mission that is
    already complete is linked symmetrically, and deleting that Mission
    (allowed, since it is complete) leaves the Cat's mission reference naming
    a Mission that is no longer stored. *)
Theorem C2_delete_mission_leaves_dangling_link :
  let s := run assigned_after_completion reset_db_state in
  link_symmetric s
  ∧ missions.delete_a_mission 1 s = (Return tt, step (DELETE_mission 1) s)
  ∧ (∃ cat, Dict.get (fake_cats_db (step (DELETE_mission 1) s)) 1 = Some cat
            ∧ Cat.mission_id cat = Some 1)
  ∧ Dict.get (fake_missions_db (step (DELETE_mission 1) s)) 1 = None
  ∧ ¬ link_symmetric (step (DELETE_mission 1) s).
Proof.
  split_and!.
  - intros c cat k Hc Hk. vm_compute in Hc.
    destruct c as [|[]|]; try discriminate. injection Hc as <-.
    injection Hk as <-. eexists. split; vm_compute; reflexivity.
  - vm_compute. reflexivity.
  - eexists. split; vm_compute; reflexivity.
  - vm_compute. reflexivity.
  - intros Hsym.
    destruct (Hsym 1 (Cat.mk 1 "Tom" 3 "Siamese" 10%float (Some 1)) 1)
      as (m & Hm & _); [vm_compute; reflexivity|reflexivity|].
    vm_compute in Hm. discriminate.
Qed.

Lemma completed_heap s k m l :
  heap (completed s k m l) = alter (Target.with_is_complete true) l (heap s).
Proof.
  unfold completed. simpl. destruct (forallb _ _); [|done].
  destruct (Mission.cat_id m) as [c|]; [|done].
  by destruct (negb (c =? 0) && Dict.contains (fake_cats_db s) c).
Qed.

Lemma completed_targets_db s k m l :
  fake_targets_db (completed s k m l) = fake_targets_db s.
Proof.
  unfold completed. simpl. destruct (forallb _ _); [|done].
  destruct (Mission.cat_id m) as [c|]; [|done].
  by destruct (negb (c =? 0) && Dict.contains (fake_cats_db s) c).
Qed.

Lemma completed_missions_db s k m l :
  fake_missions_db (completed s k m l)
  = if forallb (is_complete_at (alter (Target.with_is_complete true) l (heap s)))
               (Mission.targets m)
    then Dict.alter (Mission.with_is_complete true) (fake_missions_db s) k
    else fake_missions_db s.
Proof.
  unfold completed. simpl. destruct (forallb _ _); [|done].
  destruct (Mission.cat_id m) as [c|]; [|done].
  by destruct (negb (c =? 0) && Dict.contains (fake_cats_db s) c).
Qed.

(** C4, as the code has it. After a successful mark-complete of a Target, a
    second mark-complete of the same Target in the same Mission returns the
    same Target state and leaves the store as it is, as long as the Mission is
    still incomplete after the first call; when the first call completed the
    Mission, the second one is refused (400) and the store stays as it is. *)
Theorem C4_second_completion
    (s : Store) (k t : Z) (x : Target.t) (s1 : Store) :
  reachable s →
  missions.mark_mission_target_complete k t s = (Return x, s1) →
  ∃ m1, Dict.get (fake_missions_db s1) k = Some m1
        ∧ missions.mark_mission_target_complete k t s1
          = if Mission.is_complete m1 then (Raise Forbidden, s1)
            else (Return x, s1).
Proof.
  intros Hwf%reachable_wf. unfold missions.mark_mission_target_complete.
  unfold bind at 1. rewrite mark_target_complete_spec by done.
  destruct (Dict.get (fake_missions_db s) k) as [m|] eqn:Hm; [|done].
  destruct (Mission.is_complete m) eqn:Hinc; [done|].
  destruct (Dict.get (fake_targets_db s) t) as [l|] eqn:Ht; [|done].
  destruct (bool_decide (l ∈ Mission.targets m)) eqn:Hl; [|done]. simpl.
  pose proof Hl as Hl'. apply bool_decide_eq_true in Hl'.
  destruct (is_complete_at (heap s) l) eqn:Hat.
  - (* the Target was complete already: nothing was written *)
    unfold dump_target. mred.
    destruct (heap s !! l) as [x0|] eqn:Hx; [|done]. intros [= <- <-].
    exists m. split; [done|]. rewrite Hinc. unfold bind.
    rewrite mark_target_complete_spec, Hm, Hinc, Ht, Hl by done. simpl.
    by rewrite Hat, Hx.
  - (* the first call wrote [target.is_complete = True] *)
    assert (Hwf1 : wf (completed s k m l)) by by apply wf_completed.
    unfold dump_target. mred.
    destruct (heap (completed s k m l) !! l) as [x1|] eqn:Hx1; [|done].
    intros [= <- <-].
    assert (Hat1 : is_complete_at (heap (completed s k m l)) l = true).
    { pose proof Hx1 as Hx1'. rewrite completed_heap, list_lookup_alter_eq in Hx1'.
      unfold is_complete_at. rewrite Hx1.
      destruct (heap s !! l); simpl in Hx1'; [|done]. by injection Hx1' as <-. }
    assert (Hm1 : ∃ m1, Dict.get (fake_missions_db (completed s k m l)) k = Some m1
                        ∧ Mission.targets m1 = Mission.targets m).
    { rewrite completed_missions_db. destruct (forallb _ _).
      - exists (Mission.with_is_complete true m).
        by rewrite get_alter, decide_True, Hm.
      - by exists m. }
    destruct Hm1 as (m1 & Hm1 & Hts). exists m1. split; [done|].
    unfold bind. rewrite mark_target_complete_spec, Hm1 by done.
    destruct (Mission.is_complete m1); [done|].
    rewrite completed_targets_db, Ht, Hts, Hl. simpl.
    by rewrite Hat1, Hx1.
Qed.

Lemma C4_witness :
  ∃ m1, Dict.get (fake_missions_db
                    (step (PATCH_target_complete 1 1)
                          (run [POST_missions two_targets] reset_db_state))) 1
        = Some m1
        ∧ missions.mark_mission_target_complete 1 1
            (step (PATCH_target_complete 1 1)
                  (run [POST_missions two_targets] reset_db_state))
          = if Mission.is_complete m1
            then (Raise Forbidden,
                  step (PATCH_target_complete 1 1)
                       (run [POST_missions two_targets] reset_db_state))
            else (Return (Target.mk 1 "Alice" "FR" None true),
                  step (PATCH_target_complete 1 1)
                       (run [POST_missions two_targets] reset_db_state)).
Proof.
  apply (C4_second_completion (run [POST_missions two_targets] reset_db_state)).
  - by exists [POST_missions two_targets].
  - vm_compute. reflexivity.
Defined.

(** C4, as the spec states it, fails when the first call completes the
    Mission: the second call is refused instead of returning the Target. *)
Lemma C4_counterexample :
  let s := run [POST_missions one_target] reset_db_state in
  ∃ x s1,
    missions.mark_mission_target_complete 1 1 s = (Return x, s1)
    ∧ missions.mark_mission_target_complete 1 1 s1
      = (Raise (mkHTTPException HTTP_400_BAD_REQUEST), s1).
Proof. do 2 eexists. split; vm_compute; reflexivity. Qed.

(** C5. Assign Cat answers NotFound when the Mission or the Cat is absent;
    with both present, Conflict when the Mission already has a cat reference
    and Conflict when the Cat's mission reference names a stored Mission that
    is not complete; in every other case (the Cat has no mission reference,
    or it names a Mission that is complete or no longer stored) it succeeds
    and sets the Mission's cat reference and the Cat's mission reference
    together.  A failure leaves the store as it was. *)
Theorem C5_assign_cat (s : Store) (k c : Z) :
  reachable s →
  ∃ r s',
    missions.assign_cat_to_a_mission k (MissionAssignment.mk c) s = (r, s')
    ∧ (Dict.get (fake_missions_db s) k = None ∨ Dict.get (fake_cats_db s) c = None →
       r = Raise NotFound)
    ∧ (∀ m cat,
         Dict.get (fake_missions_db s) k = Some m →
         Dict.get (fake_cats_db s) c = Some cat →
         (is_Some (Mission.cat_id m) → r = Raise Conflict)
         ∧ (∀ k' m', Cat.mission_id cat = Some k' →
              Dict.get (fake_missions_db s) k' = Some m' →
              Mission.is_complete m' = false → r = Raise Conflict)
         ∧ (Mission.cat_id m = None →
            (∀ k' m', Cat.mission_id cat = Some k' →
               Dict.get (fake_missions_db s) k' = Some m' →
               Mission.is_complete m' = true) →
            (∃ out, r = Return out ∧ MissionOut.cat_id out = Some c)
            ∧ s' = set_fake_cats_db
                     (Dict.alter (Cat.with_mission_id (Some k)) (fake_cats_db s) c)
                     (set_fake_missions_db
                        (Dict.alter (Mission.with_cat_id (Some c))
                                    (fake_missions_db s) k) s)
            ∧ Dict.get (fake_missions_db s') k
              = Some (Mission.with_cat_id (Some c) m)
            ∧ Dict.get (fake_cats_db s') c
              = Some (Cat.with_mission_id (Some k) cat)))
    ∧ (∀ e, r = Raise e →
       s' = s
       ∧ (Dict.get (fake_missions_db s) k = None
          ∨ Dict.get (fake_cats_db s) c = None
          ∨ (∃ m, Dict.get (fake_missions_db s) k = Some m
                  ∧ is_Some (Mission.cat_id m))
          ∨ (∃ cat k' m', Dict.get (fake_cats_db s) c = Some cat
                          ∧ Cat.mission_id cat = Some k'
                          ∧ Dict.get (fake_missions_db s) k' = Some m'
                          ∧ Mission.is_complete m' = false))).
Proof.
  intros Hwf%reachable_wf. unfold missions.assign_cat_to_a_mission. simpl.
  unfold bind. rewrite assign_cat_to_mission_spec by done.
  destruct (Dict.get (fake_missions_db s) k) as [m|] eqn:Hm.
  2:{ do 2 eexists. split; [done|]. split_and!; try done; eauto. }
  destruct (Dict.get (fake_cats_db s) c) as [cat|] eqn:Hc.
  2:{ do 2 eexists. split; [done|]. split_and!; try done; eauto. }
  destruct (Mission.cat_id m) as [c0|] eqn:Hmc.
  { do 2 eexists. split; [done|]. split_and!.
    - by intros [|].
    - intros ?? [= <-] [= <-]. split_and!; try done. by rewrite Hmc.
    - intros e _. split; [done|]. right. right. left. exists m. by rewrite Hmc. }
  destruct (on_active_mission s cat) eqn:Hact.
  { unfold on_active_mission in Hact.
    destruct (Cat.mission_id cat) as [k'|] eqn:Hk'; [|done].
    destruct (Dict.get (fake_missions_db s) k') as [m'|] eqn:Hm'; [|done].
    apply negb_true_iff in Hact.
    do 2 eexists. split; [done|]. split_and!.
    - by intros [|].
    - intros ?? [= <-] [= <-]. split_and!; try done.
      intros _ Hfree. rewrite (Hfree k' m') in Hact; done.
    - intros e _. split; [done|]. do 3 right. by exists cat, k', m'. }
  do 2 eexists. split; [done|]. split_and!.
  - by intros [|].
  - intros ?? [= <-] [= <-]. split_and!.
    + rewrite Hmc. by intros [].
    + intros k' m' Hk' Hm' Hinc. unfold on_active_mission in Hact.
      by rewrite Hk', Hm', Hinc in Hact.
    + intros _ _. split_and!; simpl.
      * by eexists.
      * done.
      * by rewrite get_alter, decide_True, Hm.
      * by rewrite get_alter, decide_True, Hc.
  - done.
Qed.

Lemma C5_witness :
  ∃ r s',
    missions.assign_cat_to_a_mission 2 (MissionAssignment.mk 1)
      (run free_again reset_db_state) = (r, s')
    ∧ (∃ out, r = Return out ∧ MissionOut.cat_id out = Some 1)
    ∧ (∃ m, Dict.get (fake_missions_db s') 2 = Some m
            ∧ Mission.cat_id m = Some 1)
    ∧ (∃ cat, Dict.get (fake_cats_db s') 1 = Some cat
              ∧ Cat.mission_id cat = Some 2).
Proof.
  destruct (C5_assign_cat (run free_again reset_db_state) 2 1)
    as (r & s' & Hrun & _ & Hboth & _).
  { exists free_again. reflexivity. }
  exists r, s'. split; [exact Hrun|].
  destruct (Hboth (Mission.mk 2 false None [1%nat; 2%nat])
                  (Cat.mk 1 "Tom" 3 "Siamese" 10%float (Some 1)))
    as (_ & _ & Hok); [vm_compute; reflexivity|vm_compute; reflexivity|].
  destruct Hok as (Hout & _ & Hm & Hcat); [reflexivity| |].
  - intros k' m' [= <-] Hm'. vm_compute in Hm'. by injection Hm' as <-.
  - split; [exact Hout|]. split.
    + eexists. split; [exact Hm|reflexivity].
    + eexists. split; [exact Hcat|reflexivity].
Defined.


Lemma duplicate_check s body :
  existsb (λ existing_cat,
             String.eqb (Cat.name existing_cat) (CatCreate.name body)
             && String.eqb (Cat.breed existing_cat) (CatCreate.breed body))
          (Dict.values (fake_cats_db s)) = true
  ↔ duplicate_of s body.
Proof.
  unfold duplicate_of. rewrite existsb_exists. split.
  - intros (cat & Hcat & [?%String.eqb_eq ?%String.eqb_eq]%andb_true_iff).
    exists cat. by rewrite <- list_elem_of_In in Hcat.
  - intros (cat & Hcat & Hn & Hb). exists cat. split; [by apply list_elem_of_In|].
    apply andb_true_iff. by rewrite !String.eqb_eq.
Qed.

Lemma create_spy_cat_spec s api body :
  CatCreate.valid body = true →
  cats.create_spy_cat api body s
  = match breed_lookup api (CatCreate.breed body) with
    | inl e => (Raise (breed_except e), s)
    | inr _ =>
        if existsb (λ existing_cat,
                      String.eqb (Cat.name existing_cat) (CatCreate.name body)
                      && String.eqb (Cat.breed existing_cat) (CatCreate.breed body))
                   (Dict.values (fake_cats_db s))
        then (Raise Conflict, s)
        else
          let db_cat :=
            Cat.mk (next_cat_id s) (CatCreate.name body)
                   (CatCreate.years_of_experience body) (CatCreate.breed body)
                   (CatCreate.salary body) None in
          (Return db_cat,
           set_next_cat_id (next_cat_id s + 1)
             (set_fake_cats_db
                (Dict.set (fake_cats_db s) (next_cat_id s) db_cat) s))
    end.
Proof.
  intros Hvalid.
  unfold cats.create_spy_cat, request_body, validate_cat_breed_from_payload.
  rewrite Hvalid. unfold bind at 1. unfold ret at 1. unfold bind at 1.
  destruct (breed_lookup api (CatCreate.breed body)) as [e|[]]; [done|].
  unfold ret at 1. unfold crud.create_cat, bind at 1, gets at 1.
  by destruct (existsb _ _).
Qed.




Lemma delete_forbidden_true s k m :
  delete_forbidden s k m = true
  ↔ ∃ c cat, Mission.cat_id m = Some c ∧ Dict.get (fake_cats_db s) c = Some cat
             ∧ Cat.mission_id cat = Some k ∧ Mission.is_complete m = false.
Proof.
  unfold delete_forbidden, opt_int_eqb. split.
  - destruct (Mission.cat_id m) as [c|]; [|done].
    destruct (Dict.get (fake_cats_db s) c) as [cat|] eqn:Hcat; [|done].
    destruct (Cat.mission_id cat) as [k'|] eqn:Hk; [|done].
    intros [->%Z.eqb_eq ?%negb_true_iff]%andb_true_iff. by exists c, cat.
  - intros (c & cat & -> & -> & -> & ->). by rewrite Z.eqb_refl.
Qed.

(** C7. Delete Mission answers NotFound exactly when the Mission is absent,
    and Forbidden exactly when the Mission has a cat reference, that Cat is
    stored with its mission reference naming this Mission, and the Mission is
    not complete.  Otherwise it succeeds: the Targets the Mission owns are
    popped from the store, then the Mission.  A failure leaves the store as
    it was. *)
Theorem C7_delete_mission (s : Store) (k : Z) :
  reachable s →
  ∃ r s',
    missions.delete_a_mission k s = (r, s')
    ∧ (r = Raise NotFound ↔ Dict.get (fake_missions_db s) k = None)
    ∧ (r = Raise Forbidden
       ↔ ∃ m c cat,
           Dict.get (fake_missions_db s) k = Some m
           ∧ Mission.cat_id m = Some c
           ∧ Dict.get (fake_cats_db s) c = Some cat
           ∧ Cat.mission_id cat = Some k
           ∧ Mission.is_complete m = false)
    ∧ (r = Return tt ∨ r = Raise NotFound ∨ r = Raise Forbidden)
    ∧ (r ≠ Return tt → s' = s)
    ∧ (r = Return tt →
       ∃ m, Dict.get (fake_missions_db s) k = Some m
            ∧ s' = set_fake_missions_db (Dict.pop (fake_missions_db s) k)
                     (set_fake_targets_db
                        (popped (heap s) (fake_targets_db s) (Mission.targets m))
                        s)
            ∧ (∀ t x, owns s m t x → Dict.get (fake_targets_db s') t = None)
            ∧ Dict.get (fake_missions_db s') k = None).
Proof.
  intros Hwf%reachable_wf. unfold missions.delete_a_mission. unfold bind.
  rewrite delete_mission_spec by done.
  destruct (Dict.get (fake_missions_db s) k) as [m|] eqn:Hm.
  2:{ do 2 eexists. split; [done|]. split_and!; try done; eauto.
      split; [done|]. by intros (? & ? & ? & ? & _). }
  destruct (delete_forbidden s k m) eqn:Hf.
  - apply delete_forbidden_true in Hf as (c & cat & Hc & Hcat & Hk & Hinc).
    do 2 eexists. split; [done|]. split_and!; try done; eauto.
    split; [|done]. intros _. by exists m, c, cat.
  - do 2 eexists. split; [done|]. split_and!; try done; eauto.
    + split; [done|]. intros (m' & c & cat & [= <-] & Hrest).
      assert (delete_forbidden s k m = true) as Hf'.
      { apply delete_forbidden_true. by exists c, cat. }
      congruence.
    + intros _. exists m. split_and!; try done; simpl.
      * intros t x (l & Hl & Hx & <-). by eapply get_popped_None.
      * by rewrite get_pop, decide_True.
Qed.

Lemma C7_witness :
  ∃ r s',
    missions.delete_a_mission 1 (run tom_on_mission reset_db_state) = (r, s')
    ∧ r = Raise Forbidden ∧ s' = run tom_on_mission reset_db_state.
Proof.
  destruct (C7_delete_mission (run tom_on_mission reset_db_state) 1)
    as (r & s' & Hrun & _ & Hforbidden & _ & Hfail & _).
  { exists tom_on_mission. reflexivity. }
  exists r, s'. split; [exact Hrun|].
  assert (r = Raise Forbidden) as Hr.
  { apply Hforbidden.
    exists (Mission.mk 1 false (Some 1) [0%nat; 1%nat]), 1,
           (Cat.mk 1 "Tom" 3 "Siamese" 10%float (Some 1)).
    split_and!; vm_compute; reflexivity. }
  split; [exact Hr|]. apply Hfail. rewrite Hr. discriminate.
Defined.

Lemma on_active_mission_true s cat :
  on_active_mission s cat = true
  ↔ ∃ k m, Cat.mission_id cat = Some k
           ∧ Dict.get (fake_missions_db s) k = Some m
           ∧ Mission.is_complete m = false.
Proof.
  unfold on_active_mission. split.
  - destruct (Cat.mission_id cat) as [k|]; [|done].
    destruct (Dict.get (fake_missions_db s) k) as [m|] eqn:Hm; [|done].
    intros ?%negb_true_iff. by exists k, m.
  - by intros (k & m & -> & -> & ->).
Qed.

(** C8. Delete Cat answers NotFound exactly when the Cat is absent, and 400
    exactly when the Cat's mission reference is set and names a stored
    Mission whose completion flag is false.  Otherwise (no reference, or a
    reference to a complete Mission or to a Mission that is not stored) the
    Cat is removed.  A failure leaves the store as it was. *)
Theorem C8_delete_cat (s : Store) (c : Z) :
  reachable s →
  ∃ r s',
    cats.delete_spy_cat c s = (r, s')
    ∧ (r = Raise NotFound ↔ Dict.get (fake_cats_db s) c = None)
    ∧ (r = Raise Forbidden
       ↔ ∃ cat k m,
           Dict.get (fake_cats_db s) c = Some cat
           ∧ Cat.mission_id cat = Some k
           ∧ Dict.get (fake_missions_db s) k = Some m
           ∧ Mission.is_complete m = false)
    ∧ (r = Return tt ∨ r = Raise NotFound ∨ r = Raise Forbidden)
    ∧ (r ≠ Return tt → s' = s)
    ∧ (r = Return tt →
       s' = set_fake_cats_db (Dict.pop (fake_cats_db s) c) s
       ∧ Dict.get (fake_cats_db s') c = None).
Proof.
  intros Hwf%reachable_wf. unfold cats.delete_spy_cat. unfold bind.
  rewrite delete_cat_spec by done.
  destruct (Dict.get (fake_cats_db s) c) as [cat|] eqn:Hc.
  2:{ do 2 eexists. split; [done|]. split_and!; try done; eauto.
      split; [done|]. by intros (? & ? & ? & ? & _). }
  destruct (on_active_mission s cat) eqn:Hact.
  - apply on_active_mission_true in Hact as (k & m & Hk & Hm & Hinc).
    do 2 eexists. split; [done|]. split_and!; try done; eauto.
    split; [|done]. intros _. by exists cat, k, m.
  - do 2 eexists. split; [done|]. split_and!; try done; eauto.
    + split; [done|]. intros (cat' & k & m & [= <-] & Hrest).
      assert (on_active_mission s cat = true) as Hact'.
      { apply on_active_mission_true. by exists k, m. }
      congruence.
    + intros _. split; [done|]. simpl. by rewrite get_pop, decide_True.
Qed.

Lemma C8_witness :
  ∃ r s',
    cats.delete_spy_cat 1 (run tom_on_mission reset_db_state) = (r, s')
    ∧ r = Raise Forbidden ∧ s' = run tom_on_mission reset_db_state.
Proof.
  destruct (C8_delete_cat (run tom_on_mission reset_db_state) 1)
    as (r & s' & Hrun & _ & Hforbidden & _ & Hfail & _).
  { exists tom_on_mission. reflexivity. }
  exists r, s'. split; [exact Hrun|].
  assert (r = Raise Forbidden) as Hr.
  { apply Hforbidden.
    exists (Cat.mk 1 "Tom" 3 "Siamese" 10%float (Some 1)), 1,
           (Mission.mk 1 false (Some 1) [0%nat; 1%nat]).
    split_and!; vm_compute; reflexivity. }
  split; [exact Hr|]. apply Hfail. rewrite Hr. discriminate.
Defined.

(** C9, as the code has it. Update target notes answers NotFound when the
    Mission is absent; 400 when the Mission is complete, whatever the target
    id; with an incomplete Mission, NotFound when the target id names no
    Target of that Mission and 400 when the Target it names is complete;
    otherwise it replaces the notes of that Target with the given string and
    changes nothing else.  A failure leaves the store as it was. *)
Theorem C9_update_target_notes (s : Store) (k t : Z) (notes : string) :
  reachable s →
  ∃ r s',
    missions.update_mission_target_notes k t notes s = (r, s')
    ∧ (Dict.get (fake_missions_db s) k = None → r = Raise NotFound)
    ∧ (∀ m, Dict.get (fake_missions_db s) k = Some m →
         (Mission.is_complete m = true → r = Raise Forbidden)
         ∧ (Mission.is_complete m = false → (¬ ∃ x, owns s m t x) →
            r = Raise NotFound)
         ∧ (Mission.is_complete m = false → ∀ x, owns s m t x →
            (Target.is_complete x = true → r = Raise Forbidden)
            ∧ (Target.is_complete x = false →
               r = Return (Target.with_notes (Some notes) x)
               ∧ ∃ l, Dict.get (fake_targets_db s) t = Some l
                      ∧ heap s !! l = Some x
                      ∧ s' = set_heap
                               (alter (Target.with_notes (Some notes)) l (heap s))
                               s)))
    ∧ (∀ e, r = Raise e → s' = s).
Proof.
  intros Hwf%reachable_wf. unfold missions.update_mission_target_notes.
  unfold bind. rewrite update_target_notes_spec by done.
  destruct (Dict.get (fake_missions_db s) k) as [m|] eqn:Hm.
  2:{ do 2 eexists. split; [done|]. by split_and!. }
  destruct (Mission.is_complete m) eqn:Hinc.
  { do 2 eexists. split; [done|]. split_and!; [done| |done].
    intros ? [= <-]. split_and!; [done|congruence|congruence]. }
  destruct (Dict.get (fake_targets_db s) t) as [l|] eqn:Ht.
  2:{ do 2 eexists. split; [done|]. split_and!; [done| |done].
      intros ? [= <-]. split_and!; [congruence|done|].
      intros _ x Hx. destruct (owns_lookup s k m t x Hwf Hm Hx) as (l & Hl & _).
      congruence. }
  destruct (bool_decide (l ∈ Mission.targets m)) eqn:Hl; simpl.
  2:{ apply bool_decide_eq_false in Hl.
      do 2 eexists. split; [done|]. split_and!; [done| |done].
      intros ? [= <-]. split_and!; [congruence|done|].
      intros _ x Hx. destruct (owns_lookup s k m t x Hwf Hm Hx) as (l' & Hl' & ? & _).
      congruence. }
  apply bool_decide_eq_true in Hl.
  destruct (lookup_owns s k m t l Hwf Hm Ht Hl) as (x & Hx & Hown).
  assert (Huniq : ∀ x', owns s m t x' → x' = x).
  { intros x' Hx'. destruct (owns_lookup s k m t x' Hwf Hm Hx') as (l' & ? & _ & ?).
    congruence. }
  destruct (is_complete_at (heap s) l) eqn:Hat;
    unfold is_complete_at in Hat; rewrite Hx in Hat.
  - do 2 eexists. split; [done|]. split_and!; [done| |done].
    intros ? [= <-]. split_and!; [congruence| |].
    + intros _ []. by exists x.
    + intros _ x' ->%Huniq. split; [done|congruence].
  - unfold dump_target. mred. rewrite list_lookup_alter_eq, Hx. simpl.
    do 2 eexists. split; [done|]. split_and!; [done| |done].
    intros ? [= <-]. split_and!; [congruence| |].
    + intros _ []. by exists x.
    + intros _ x' ->%Huniq. split; [congruence|]. intros _. split; [done|].
      by exists l.
Qed.

Lemma C9_witness :
  ∃ r s',
    missions.update_mission_target_notes 1 2 "seen in Berlin"
      (run one_done reset_db_state) = (r, s')
    ∧ r = Return (Target.mk 2 "Bob" "DE" (Some "seen in Berlin") false).
Proof.
  destruct (C9_update_target_notes (run one_done reset_db_state) 1 2
              "seen in Berlin")
    as (r & s' & Hrun & _ & Hpresent & _).
  { exists one_done. reflexivity. }
  exists r, s'. split; [exact Hrun|].
  destruct (Hpresent (Mission.mk 1 false None [0%nat; 1%nat]))
    as (_ & _ & Hnamed); [vm_compute; reflexivity|].
  destruct (Hnamed eq_refl (Target.mk 2 "Bob" "DE" None false)) as [_ Hok].
  { exists 1%nat. split_and!; [|vm_compute; reflexivity|reflexivity].
    apply list_elem_of_In. simpl. auto. }
  by destruct (Hok eq_refl) as [-> _].
Defined.

(** C9, as the spec states it, fails: with the Mission complete, a target id
    that names no Target of the Mission is answered 400, not NotFound. *)
Lemma C9_counterexample :
  let s := run mission_done reset_db_state in
  ∃ m, Dict.get (fake_missions_db s) 1 = Some m
       ∧ Mission.is_complete m = true
       ∧ (¬ ∃ x, owns s m 99 x)
       ∧ missions.update_mission_target_notes 1 99 "x" s
         = (Raise (mkHTTPException HTTP_400_BAD_REQUEST), s)
       ∧ mkHTTPException HTTP_400_BAD_REQUEST ≠ NotFound.
Proof.
  eexists. split_and!.
  - vm_compute. reflexivity.
  - reflexivity.
  - intros (x & l & Hl & Hx & Hid). apply list_elem_of_In in Hl. simpl in Hl.
    destruct Hl as [<-|[]]. vm_compute in Hx. injection Hx as <-. discriminate.
  - vm_compute. reflexivity.
  - discriminate.
Qed.

Lemma omap_lookup_fresh (c h : list Target.t) :
  omap (λ l, (h ++ c) !! l) (seq (length h) (length c)) = c.
Proof.
  revert h. induction c as [|x c IH]; intros h; simpl; [done|].
  rewrite lookup_app_r by lia. replace (length h - length h)%nat with 0%nat by lia.
  simpl. f_equal.
  replace (h ++ x :: c) with ((h ++ [x]) ++ c) by by rewrite <- app_assoc.
  replace (S (length h)) with (length (h ++ [x])). { apply IH. }
  rewrite length_app. simpl. lia.
Qed.

Lemma omap_lookup_created h n tcs :
  omap (λ l, (h ++ created n tcs) !! l) (seq (length h) (length tcs))
  = created n tcs.
Proof. rewrite <- (length_created n tcs). apply omap_lookup_fresh. Qed.

Lemma created_incomplete tcs : ∀ n,
  Forall (λ x, Target.is_complete x = false) (created n tcs).
Proof. induction tcs; intros; simpl; constructor; auto. Qed.

(** C10. A mission-creation request with one to three target specifications
    succeeds; the Mission it stores (under the next mission id, with no cat
    reference) and every Target that Mission owns have completion flag false,
    whatever the [is_complete] fields of the payload say, and so has the
    response. *)
Theorem C10_create_mission_incomplete (s : Store) (body : MissionCreate.t) :
  MissionCreate.valid body = true →
  ∃ out s',
    missions.create_new_mission body s = (Return out, s')
    ∧ MissionOut.is_complete out = false
    ∧ length (MissionOut.targets out) = length (MissionCreate.targets body)
    ∧ Forall (λ x, Target.is_complete x = false) (MissionOut.targets out)
    ∧ ∃ m, Dict.get (fake_missions_db s') (next_mission_id s) = Some m
           ∧ Mission.is_complete m = false
           ∧ Mission.cat_id m = None
           ∧ length (Mission.targets m) = length (MissionCreate.targets body)
           ∧ ∀ l, l ∈ Mission.targets m →
               ∃ x, heap s' !! l = Some x
                    ∧ Target.is_complete x = false
                    ∧ Dict.get (fake_targets_db s') (Target.id x) = Some l.
Proof.
  intros Hvalid. unfold missions.create_new_mission, request_body.
  rewrite Hvalid. unfold bind at 1, ret at 1. unfold bind.
  rewrite create_mission_spec. cbv zeta. unfold dump_mission, gets.
  do 2 eexists. split; [done|]. simpl. rewrite omap_lookup_created.
  split_and!; [done|apply length_created|apply created_incomplete|].
  eexists. rewrite get_set, decide_True by done. split_and!; try done.
  - simpl. apply length_seq.
  - simpl. intros l [Hge Hlt]%elem_of_seq.
    destruct (lookup_lt_is_Some_2 (created (next_target_id s)
                (MissionCreate.targets body)) (l - length (heap s))%nat) as [x Hx].
    { rewrite length_created. lia. }
    exists x. rewrite lookup_app_r by lia. split; [done|].
    apply lookup_created in Hx as [Hid Hinc]. split; [done|].
    rewrite get_registered, decide_True by lia. f_equal. lia.
Qed.

Lemma C10_witness :
  ∃ out s',
    missions.create_new_mission two_targets reset_db_state = (Return out, s')
    ∧ MissionOut.is_complete out = false
    ∧ length (MissionOut.targets out) = 2%nat
    ∧ Forall (λ x, Target.is_complete x = false) (MissionOut.targets out).
Proof.
  destruct (C10_create_mission_incomplete reset_db_state two_targets)
    as (out & s' & Hrun & Hflag & Hlen & Hall & _).
  { vm_compute. reflexivity. }
  by exists out, s'.
Defined.

(** ** Further properties of the code *)

Lemma create_cat_update s cat_in : update s (snd (crud.create_cat cat_in s)).
Proof.
  unfold crud.create_cat. unfold bind at 1, gets at 1.
  destruct (existsb _ _) eqn:Hdup; [apply update_none|].
  mred. apply update_create_cat. rewrite <- duplicate_check. congruence.
Qed.

Lemma update_cat_salary_update s c v :
  update s (snd (crud.update_cat_salary c v s)).
Proof.
  unfold crud.update_cat_salary, Dict.contains. mred.
  destruct (Dict.get (fake_cats_db s) c) as [cat|] eqn:Hc; simpl;
    [by eapply update_salary|apply update_none].
Qed.

Lemma delete_cat_update s c : wf s → update s (snd (crud.delete_cat c s)).
Proof.
  intros Hwf. rewrite delete_cat_spec by done.
  destruct (Dict.get (fake_cats_db s) c) as [cat|] eqn:Hc; [|apply update_none].
  destruct (on_active_mission s cat) eqn:Hact; [apply update_none|].
  by eapply update_delete_cat.
Qed.

Lemma assign_cat_to_mission_update s k c :
  wf s → update s (snd (crud.assign_cat_to_mission k c s)).
Proof.
  intros Hwf. rewrite assign_cat_to_mission_spec by done.
  destruct (Dict.get (fake_missions_db s) k) as [m|] eqn:Hm; [|apply update_none].
  destruct (Dict.get (fake_cats_db s) c) as [cat|] eqn:Hc; [|apply update_none].
  destruct (Mission.cat_id m) eqn:Hnone; [apply update_none|].
  destruct (on_active_mission s cat) eqn:Hact; [apply update_none|].
  by eapply update_assign.
Qed.

Lemma update_target_notes_update s k t notes :
  wf s → update s (snd (crud.update_target_notes k t notes s)).
Proof.
  intros Hwf. rewrite update_target_notes_spec by done.
  destruct (Dict.get (fake_missions_db s) k) as [m|] eqn:Hm; [|apply update_none].
  destruct (Mission.is_complete m) eqn:Hinc; [apply update_none|].
  destruct (Dict.get (fake_targets_db s) t) as [l|] eqn:Ht; [|apply update_none].
  destruct (bool_decide (l ∈ Mission.targets m)) eqn:Hl; [|apply update_none].
  apply bool_decide_eq_true in Hl. simpl.
  destruct (is_complete_at (heap s) l) eqn:Hat; [apply update_none|].
  by eapply update_notes.
Qed.

Lemma mark_target_complete_update s k t :
  wf s → update s (snd (crud.mark_target_complete k t s)).
Proof.
  intros Hwf. rewrite mark_target_complete_spec by done.
  destruct (Dict.get (fake_missions_db s) k) as [m|] eqn:Hm; [|apply update_none].
  destruct (Mission.is_complete m) eqn:Hinc; [apply update_none|].
  destruct (Dict.get (fake_targets_db s) t) as [l|] eqn:Ht; [|apply update_none].
  destruct (bool_decide (l ∈ Mission.targets m)) eqn:Hl; [|apply update_none].
  apply bool_decide_eq_true in Hl. simpl.
  destruct (is_complete_at (heap s) l) eqn:Hat; [apply update_none|].
  by eapply update_complete.
Qed.

Lemma delete_mission_update s k : wf s → update s (snd (crud.delete_mission k s)).
Proof.
  intros Hwf. rewrite delete_mission_spec by done.
  destruct (Dict.get (fake_missions_db s) k) as [m|] eqn:Hm; [|apply update_none].
  destruct (delete_forbidden s k m) eqn:Hf; [apply update_none|].
  by eapply update_delete_mission.
Qed.

Lemma step_update r s : wf s → update s (step r s).
Proof.
  intros Hwf. destruct r; simpl.
  - unfold cats.create_spy_cat, request_body, validate_cat_breed_from_payload.
    unfold bind at 1. destruct (CatCreate.valid body); [|apply update_none]. simpl.
    unfold bind at 1.
    destruct (breed_lookup api (CatCreate.breed body)); [apply update_none|].
    apply create_cat_update.
  - apply update_none.
  - unfold cats.get_spy_cat, crud.get_cat. mred.
    destruct (Dict.get _ _); apply update_none.
  - unfold cats.update_spy_cat_salary, request_body.
    unfold bind at 1. destruct (CatUpdate.valid body); [|apply update_none]. simpl.
    destruct (CatUpdate.salary body); [|apply update_none].
    rewrite snd_bind_pure; [apply update_cat_salary_update|]. by intros [].
  - unfold cats.delete_spy_cat.
    rewrite snd_bind_pure; [by apply delete_cat_update|]. by intros [].
  - unfold missions.create_new_mission, request_body.
    unfold bind at 1. destruct (MissionCreate.valid body) eqn:Hvalid;
      [|apply update_none].
    simpl. rewrite snd_bind_pure; [by apply update_create_mission|done].
  - unfold missions.list_all_missions.
    rewrite snd_bind_pure; [rewrite get_missions_wf by done; apply update_none|].
    intros. apply dump_missions_pure.
  - unfold missions.get_single_mission. unfold bind.
    rewrite get_mission_wf by done. destruct (Dict.get _ _); apply update_none.
  - unfold missions.assign_cat_to_a_mission.
    rewrite snd_bind_pure; [by apply assign_cat_to_mission_update|]. by intros [].
  - unfold missions.update_mission_target_notes.
    rewrite snd_bind_pure; [by apply update_target_notes_update|].
    intros. apply dump_target_pure.
  - unfold missions.mark_mission_target_complete.
    rewrite snd_bind_pure; [by apply mark_target_complete_update|].
    intros. apply dump_target_pure.
  - unfold missions.delete_a_mission.
    rewrite snd_bind_pure; [by apply delete_mission_update|]. by intros [].
Qed.

(** Induction over the runs of the service. *)
Lemma run_invariant (P : Store → Prop) :
  P reset_db_state →
  (∀ s s', wf s → P s → update s s' → P s') →
  ∀ s, reachable s → P s.
Proof.
  intros Hinit Hstep s [rs <-].
  assert (∀ s0, wf s0 → P s0 → P (run rs s0)) as Hrun.
  { induction rs as [|r rs IH]; intros s0 Hwf HP; simpl; [done|].
    apply IH; [by apply step_wf|]. eapply Hstep; [done|done|by apply step_update]. }
  apply Hrun; [apply wf_reset|done].
Qed.

(** ** What an update leaves as it was *)

Lemma completed_cats_db s k m l :
  fake_cats_db (completed s k m l) = fake_cats_db s
  ∨ ∃ c, Mission.cat_id m = Some c
         ∧ fake_cats_db (completed s k m l)
           = Dict.alter (Cat.with_mission_id None) (fake_cats_db s) c.
Proof.
  unfold completed. simpl. destruct (forallb _ _); [|by left].
  destruct (Mission.cat_id m) as [c|]; [|by left].
  destruct (negb (c =? 0) && Dict.contains (fake_cats_db s) c); [|by left].
  right. by exists c.
Qed.

Lemma completed_counters s k m l :
  next_cat_id (completed s k m l) = next_cat_id s
  ∧ next_mission_id (completed s k m l) = next_mission_id s
  ∧ next_target_id (completed s k m l) = next_target_id s.
Proof.
  unfold completed. simpl. destruct (forallb _ _); [|done].
  destruct (Mission.cat_id m) as [c|]; [|done].
  by destruct (negb (c =? 0) && Dict.contains (fake_cats_db s) c).
Qed.

Lemma update_counters s s' :
  update s s' →
  next_cat_id s ≤ next_cat_id s'
  ∧ next_mission_id s ≤ next_mission_id s'
  ∧ next_target_id s ≤ next_target_id s'.
Proof.
  intros [| | | | | | | |]; simpl; try lia.
  - rewrite create_mission_spec. simpl. lia.
  - destruct (completed_counters s k m l) as (-> & -> & ->). lia.
Qed.

(** A stored Cat keeps its id, name, breed and experience; a Cat that appears
    is the one just created, under the next id and with no mission. *)
Lemma update_cats s s' k cat' :
  update s s' → Dict.get (fake_cats_db s') k = Some cat' →
  (∃ cat, Dict.get (fake_cats_db s) k = Some cat
          ∧ Cat.id cat' = Cat.id cat ∧ Cat.name cat' = Cat.name cat
          ∧ Cat.breed cat' = Cat.breed cat
          ∧ Cat.years_of_experience cat' = Cat.years_of_experience cat)
  ∨ (k = next_cat_id s ∧ next_cat_id s' = next_cat_id s + 1
     ∧ Cat.id cat' = k ∧ Cat.mission_id cat' = None
     ∧ ¬ ∃ cat, cat ∈ Dict.values (fake_cats_db s)
                ∧ Cat.name cat = Cat.name cat' ∧ Cat.breed cat = Cat.breed cat').
Proof.
  intros [| | | | | | | |]; simpl.
  - left. by exists cat'.
  - rewrite get_set. case_decide.
    + intros [= <-]. right. by split_and!.
    + left. by exists cat'.
  - intros (c0 & Hc0 & ->)%get_alter_Some. left. exists c0.
    split; [done|]. by case_decide.
  - rewrite get_pop. case_decide; [done|]. left. by exists cat'.
  - rewrite create_mission_spec. simpl. left. by exists cat'.
  - intros (c0 & Hc0 & ->)%get_alter_Some. left. exists c0.
    split; [done|]. by case_decide.
  - left. by exists cat'.
  - destruct (completed_cats_db s k0 m l) as [->|(c & _ & ->)].
    + left. by exists cat'.
    + intros (c0 & Hc0 & ->)%get_alter_Some. left. exists c0.
      split; [done|]. by case_decide.
  - left. by exists cat'.
Qed.

(** A stored Mission stays stored, unless it is the one deleted, with the
    same id and the same targets; it does not become incomplete again and a
    cat reference that is set stays as it is. *)
Lemma update_missions s s' k m :
  wf s → update s s' → Dict.get (fake_missions_db s) k = Some m →
  Dict.get (fake_missions_db s') k = None
  ∨ ∃ m', Dict.get (fake_missions_db s') k = Some m'
          ∧ Mission.id m' = Mission.id m
          ∧ Mission.targets m' = Mission.targets m
          ∧ (Mission.is_complete m = true → Mission.is_complete m' = true)
          ∧ (∀ c, Mission.cat_id m = Some c → Mission.cat_id m' = Some c).
Proof.
  intros Hwf Hupd Hm.
  destruct Hupd as [| | | | mission_in Hvalid | k0 c m0 cat Hm0 Hnone | |
                    k0 t m0 l Hm0 | k0 m0]; simpl;
    try (right; exists m; by split_and!).
  - rewrite create_mission_spec. simpl. rewrite get_set. right.
    destruct (wf_missions s Hwf k m Hm) as (_ & Hk & _).
    rewrite decide_False by lia. exists m. by split_and!.
  - right. rewrite get_alter, Hm. case_decide; simpl; [|exists m; by split_and!].
    simplify_eq. eexists. split; [done|]. split_and!; try done. congruence.
  - right. rewrite completed_missions_db. destruct (forallb _ _).
    + rewrite get_alter, Hm. case_decide; simpl; [|exists m; by split_and!].
      eexists. split; [done|]. by split_and!.
    + exists m. by split_and!.
  - rewrite get_pop. case_decide; [by left|]. right. exists m. by split_and!.
Qed.

(** A Mission that is stored after an update was stored before it, or is the
    one just created. *)
Lemma update_missions_back s s' k m' :
  update s s' → Dict.get (fake_missions_db s') k = Some m' →
  (∃ m, Dict.get (fake_missions_db s) k = Some m)
  ∨ (k = next_mission_id s ∧ next_mission_id s' = next_mission_id s + 1
     ∧ Mission.is_complete m' = false ∧ Mission.cat_id m' = None).
Proof.
  intros [| | | | mission_in Hvalid | | | |]; simpl; eauto.
  - rewrite create_mission_spec. simpl. rewrite get_set. case_decide; eauto.
    intros [= <-]. by right.
  - intros (m1 & Hm1 & _)%get_alter_Some. eauto.
  - rewrite completed_missions_db. destruct (forallb _ _); eauto.
    intros (m1 & Hm1 & _)%get_alter_Some. eauto.
  - rewrite get_pop. case_decide; [done|]. eauto.
Qed.

(** A Target instance keeps its id, name and country, and once it is
    complete it is not written again. *)
Lemma update_heap s s' l x :
  update s s' → heap s !! l = Some x →
  ∃ x', heap s' !! l = Some x'
        ∧ Target.id x' = Target.id x ∧ Target.name x' = Target.name x
        ∧ Target.country x' = Target.country x
        ∧ (Target.is_complete x = true → x' = x).
Proof.
  intros Hupd Hx.
  assert (∀ (f : Target.t → Target.t) l0,
            (∀ y, Target.id (f y) = Target.id y ∧ Target.name (f y) = Target.name y
                  ∧ Target.country (f y) = Target.country y) →
            is_complete_at (heap s) l0 = false →
            ∃ x', alter f l0 (heap s) !! l = Some x'
                  ∧ Target.id x' = Target.id x ∧ Target.name x' = Target.name x
                  ∧ Target.country x' = Target.country x
                  ∧ (Target.is_complete x = true → x' = x)) as Halter.
  { intros f l0 Hf Hat. rewrite list_lookup_alter. case_decide.
    - subst l0. rewrite Hx. simpl. exists (f x). split; [done|].
      destruct (Hf x) as (? & ? & ?). split_and!; try done.
      unfold is_complete_at in Hat. rewrite Hx in Hat. congruence.
    - exists x. by split_and!. }
  destruct Hupd as [| | | | mission_in Hvalid | | | |]; simpl;
    try (exists x; by split_and!).
  - rewrite create_mission_spec. simpl. exists x.
    rewrite lookup_app_l by by eapply lookup_lt_Some. by split_and!.
  - by apply Halter.
  - rewrite completed_heap. by apply Halter.
Qed.

(** An entry of [fake_targets_db] stays as it is or is popped; a new entry
    has an id that was not given out before. *)
Lemma update_targets_db s s' t l :
  update s s' → Dict.get (fake_targets_db s') t = Some l →
  Dict.get (fake_targets_db s) t = Some l
  ∨ (next_target_id s ≤ t < next_target_id s' ∧ (length (heap s) ≤ l)%nat).
Proof.
  intros [| | | | mission_in Hvalid | | | |]; simpl; eauto.
  - rewrite create_mission_spec. simpl. rewrite get_registered.
    case_decide; eauto. intros [= <-]. right. lia.
  - rewrite completed_targets_db. eauto.
  - intros [? _]%get_popped_Some. eauto.
Qed.

Lemma get_values {V} (d : Dict.t V) k v :
  Dict.get d k = Some v → v ∈ Dict.values d.
Proof.
  intros Hv%get_elem_of. unfold Dict.values.
  apply list_elem_of_fmap. by exists (k, v).
Qed.

(** X1. In every reachable store no two stored Cats share a (name, breed)
    pair: [create_cat] refuses a duplicate and no other function writes a
    name or a breed. *)
Theorem X1_name_breed_unique (s : Store) : reachable s → cats_unique s.
Proof.
  revert s. apply run_invariant.
  - intros k1 k2 c1 c2 Hc1. done.
  - intros s s' Hwf IH Hupd k1 k2 c1 c2 Hc1 Hc2 Hname Hbreed.
    destruct (update_cats s s' k1 c1 Hupd Hc1)
      as [(o1 & Ho1 & _ & Hn1 & Hb1 & _)|(-> & _ & _ & _ & Hnew1)];
    destruct (update_cats s s' k2 c2 Hupd Hc2)
      as [(o2 & Ho2 & _ & Hn2 & Hb2 & _)|(-> & _ & _ & _ & Hnew2)].
    + apply (IH k1 k2 o1 o2); congruence.
    + destruct Hnew2. exists o1. split_and!; [by eapply get_values|congruence..].
    + destruct Hnew1. exists o2. split_and!; [by eapply get_values|congruence..].
    + done.
Qed.

Lemma X1_witness :
  reachable (run two_cats reset_db_state)
  ∧ cats_unique (run two_cats reset_db_state).
Proof.
  assert (reachable (run two_cats reset_db_state)) as H.
  { exists two_cats. reflexivity. }
  split; [exact H|]. apply X1_name_breed_unique, H.
Defined.

(** Ids below the counters that name nothing stay unused. *)
Lemma update_unused s s' :
  wf s → update s s' →
  (∀ k, k < next_cat_id s → Dict.get (fake_cats_db s) k = None →
        Dict.get (fake_cats_db s') k = None)
  ∧ (∀ k, k < next_mission_id s → Dict.get (fake_missions_db s) k = None →
          Dict.get (fake_missions_db s') k = None)
  ∧ (∀ t, t < next_target_id s → Dict.get (fake_targets_db s) t = None →
          Dict.get (fake_targets_db s') t = None).
Proof.
  intros Hwf Hupd. split_and!.
  - intros k Hk Hnone. destruct (Dict.get (fake_cats_db s') k) as [c|] eqn:E; [|done].
    destruct (update_cats s s' k c Hupd E) as [(? & ? & _)|(-> & _)];
      [congruence|lia].
  - intros k Hk Hnone.
    destruct (Dict.get (fake_missions_db s') k) as [m|] eqn:E; [|done].
    destruct (update_missions_back s s' k m Hupd E) as [(? & ?)|(-> & _)];
      [congruence|lia].
  - intros t Ht Hnone.
    destruct (Dict.get (fake_targets_db s') t) as [l|] eqn:E; [|done].
    destruct (update_targets_db s s' t l Hupd E) as [?|[? _]]; [congruence|lia].
Qed.

Lemma run_unused rs : ∀ s,
  wf s →
  (∀ k, k < next_cat_id s → Dict.get (fake_cats_db s) k = None →
        Dict.get (fake_cats_db (run rs s)) k = None)
  ∧ (∀ k, k < next_mission_id s → Dict.get (fake_missions_db s) k = None →
          Dict.get (fake_missions_db (run rs s)) k = None)
  ∧ (∀ t, t < next_target_id s → Dict.get (fake_targets_db s) t = None →
          Dict.get (fake_targets_db (run rs s)) t = None).
Proof.
  induction rs as [|r rs IH]; intros s Hwf; simpl; [done|].
  pose proof (step_update r s Hwf) as Hupd.
  destruct (update_unused s _ Hwf Hupd) as (Hc & Hm & Ht).
  destruct (update_counters s _ Hupd) as (Hnc & Hnm & Hnt).
  destruct (IH (step r s) (step_wf r s Hwf)) as (IHc & IHm & IHt).
  split_and!; intros k Hk Hnone.
  - apply IHc; [lia|by apply Hc].
  - apply IHm; [lia|by apply Hm].
  - apply IHt; [lia|by apply Ht].
Qed.

(** X2. Ids are never given out twice.  In a reachable store every stored
    Cat, Mission and Target has an id below the counter of its kind, and an
    id below the counter that names nothing (the entity was deleted) names
    nothing after any further requests. *)
Theorem X2_ids_never_reused (s : Store) (rs : list Request) :
  reachable s →
  (∀ k, k < next_cat_id s →
        is_Some (Dict.get (fake_cats_db (run rs s)) k) →
        is_Some (Dict.get (fake_cats_db s) k))
  ∧ (∀ k, k < next_mission_id s →
          is_Some (Dict.get (fake_missions_db (run rs s)) k) →
          is_Some (Dict.get (fake_missions_db s) k))
  ∧ (∀ t, t < next_target_id s →
          is_Some (Dict.get (fake_targets_db (run rs s)) t) →
          is_Some (Dict.get (fake_targets_db s) t))
  ∧ (∀ k, is_Some (Dict.get (fake_cats_db s) k) → k < next_cat_id s)
  ∧ (∀ k, is_Some (Dict.get (fake_missions_db s) k) → k < next_mission_id s)
  ∧ (∀ t, is_Some (Dict.get (fake_targets_db s) t) → t < next_target_id s).
Proof.
  intros Hwf%reachable_wf.
  destruct (run_unused rs s Hwf) as (Hc & Hm & Ht).
  split_and!.
  - intros k Hk [c Hc']. destruct (Dict.get (fake_cats_db s) k) eqn:E; [done|].
    rewrite Hc in Hc'; done.
  - intros k Hk [m Hm']. destruct (Dict.get (fake_missions_db s) k) eqn:E; [done|].
    rewrite Hm in Hm'; done.
  - intros t Ht0 [l Hl]. destruct (Dict.get (fake_targets_db s) t) eqn:E; [done|].
    rewrite Ht in Hl; done.
  - intros k [c Hc']. apply (wf_cats s Hwf) in Hc'. lia.
  - intros k [m Hm']. apply (wf_missions s Hwf) in Hm'. lia.
  - intros t [l Hl]. apply (wf_targets s Hwf) in Hl. lia.
Qed.

Lemma X2_witness :
  reachable (run tom_deleted reset_db_state)
  ∧ Dict.get (fake_cats_db (run tom_deleted reset_db_state)) 1 = None
  ∧ Dict.get (fake_cats_db
                (run [POST_cats the_breeds felix; POST_cats the_breeds tom]
                     (run tom_deleted reset_db_state))) 1 = None.
Proof.
  assert (reachable (run tom_deleted reset_db_state)) as H.
  { exists tom_deleted. reflexivity. }
  split; [exact H|]. split; [vm_compute; reflexivity|].
  destruct (X2_ids_never_reused (run tom_deleted reset_db_state)
              [POST_cats the_breeds felix; POST_cats the_breeds tom] H)
    as (Hcats & _).
  destruct (Dict.get _ 1) as [c|] eqn:E; [|reflexivity].
  destruct (Hcats 1) as [c' Hc']; [vm_compute; reflexivity|by eexists|].
  vm_compute in Hc'. discriminate.
Defined.



Lemma update_every_target_owned s s' :
  wf s → every_target_owned s → update s s' → every_target_owned s'.
Proof.
  intros Hwf IH Hupd t l.
  destruct Hupd as [| | | | mission_in Hvalid | k0 c m0 cat Hm0 Hnone | |
                    k0 t0 m0 l0 Hm0 | k0 m0 Hm0]; simpl; try apply IH.
  - rewrite create_mission_spec. simpl. rewrite get_registered. case_decide.
    + intros [= <-]. exists (next_mission_id s). eexists.
      rewrite get_set, decide_True by done. split; [done|]. simpl.
      apply elem_of_seq. lia.
    + intros (k & m & Hm & Hl)%IH. exists k, m. split; [|done].
      rewrite get_set. destruct (wf_missions s Hwf k m Hm) as (_ & ? & _).
      by rewrite decide_False by lia.
  - intros (k & m & Hm & Hl)%IH. exists k.
    rewrite get_alter, Hm. case_decide; simpl; eauto.
  - rewrite completed_targets_db, completed_missions_db.
    intros (k & m & Hm & Hl)%IH. exists k. destruct (forallb _ _); [|eauto].
    rewrite get_alter, Hm. case_decide; simpl; eauto.
  - intros [Hl Hno]%get_popped_Some. destruct (IH t l Hl) as (k & m & Hm & Hin).
    exists k, m. split; [|done]. rewrite get_pop. case_decide; [|done].
    subst k0. simplify_eq.
    destruct (wf_targets s Hwf t l Hl) as (_ & x & Hx & Hid).
    by destruct (Hno l x).
Qed.

(** X4. Targets and Missions stay together.  In every reachable store each
    entry of [fake_targets_db] names a Target of some stored Mission (deleting
    a Mission leaves no Target behind), each Target of a stored Mission is in
    [fake_targets_db] under its id (deleting a Mission takes no Target of
    another one), and no Target belongs to two Missions. *)
Theorem X4_targets_belong_to_missions (s : Store) :
  reachable s →
  every_target_owned s
  ∧ (∀ k m l, Dict.get (fake_missions_db s) k = Some m → l ∈ Mission.targets m →
       ∃ x, heap s !! l = Some x
            ∧ Dict.get (fake_targets_db s) (Target.id x) = Some l)
  ∧ (∀ k1 k2 m1 m2 l,
       Dict.get (fake_missions_db s) k1 = Some m1 →
       Dict.get (fake_missions_db s) k2 = Some m2 →
       l ∈ Mission.targets m1 → l ∈ Mission.targets m2 → k1 = k2).
Proof.
  intros Hs. split_and!.
  - revert s Hs. apply run_invariant; [done|].
    intros s s' Hwf IH Hupd. by eapply update_every_target_owned.
  - apply (wf_owned s (reachable_wf s Hs)).
  - apply (wf_disjoint s (reachable_wf s Hs)).
Qed.

Lemma X4_witness :
  reachable (run first_deleted reset_db_state)
  ∧ every_target_owned (run first_deleted reset_db_state)
  ∧ Dict.keys (fake_targets_db (run first_deleted reset_db_state)) = [2; 3].
Proof.
  assert (reachable (run first_deleted reset_db_state)) as H.
  { exists first_deleted. reflexivity. }
  split; [exact H|]. split; [|vm_compute; reflexivity].
  by destruct (X4_targets_belong_to_missions _ H) as [? _].
Defined.

(** X5. The read requests leave a reachable store as it is: listing and
    getting Cats never write, and the re-resolution of [mission.targets] in
    [get_mission] and [get_missions] writes back what was there. *)
Theorem X5_reads_do_not_write (s : Store) :
  reachable s →
  (∀ skip limit, step (GET_cats skip limit) s = s)
  ∧ (∀ cat_id, step (GET_cat cat_id) s = s)
  ∧ (∀ skip limit, step (GET_missions skip limit) s = s)
  ∧ (∀ mission_id, step (GET_mission mission_id) s = s).
Proof.
  intros Hwf%reachable_wf. split_and!; simpl.
  - done.
  - intros c. unfold cats.get_spy_cat, crud.get_cat. mred.
    by destruct (Dict.get _ _).
  - intros skip limit. unfold missions.list_all_missions.
    rewrite snd_bind_pure; [by rewrite get_missions_wf|].
    intros. apply dump_missions_pure.
  - intros k. unfold missions.get_single_mission. unfold bind.
    rewrite get_mission_wf by done. by destruct (Dict.get _ _).
Qed.

Lemma X5_witness :
  reachable (run tom_on_mission reset_db_state)
  ∧ step (GET_missions 0 100) (run tom_on_mission reset_db_state)
    = run tom_on_mission reset_db_state.
Proof.
  assert (reachable (run tom_on_mission reset_db_state)) as H.
  { exists tom_on_mission. reflexivity. }
  split; [exact H|]. by destruct (X5_reads_do_not_write _ H) as (_ & _ & ? & _).
Defined.

Lemma omap_lookup_owned (h : list Target.t) (ls : list nat) (xs : list Target.t) :
  Forall2 (λ l x, h !! l = Some x) ls xs → omap (λ l, h !! l) ls = xs.
Proof.
  induction 1 as [|l x ls xs Hx _ IH]; simpl; [done|].
  rewrite Hx. f_equal. exact IH.
Qed.

(** X6. Get Mission on a reachable store answers NotFound when the Mission
    is absent; otherwise it returns the Mission with all the Targets it owns,
    in order and as they are now (no Target is dropped by the re-resolution),
    its completion flag being the conjunction of theirs. *)
Theorem X6_get_mission (s : Store) (k : Z) :
  reachable s →
  match Dict.get (fake_missions_db s) k with
  | None => missions.get_single_mission k s = (Raise NotFound, s)
  | Some m =>
      ∃ xs, owned_targets s m xs
            ∧ missions.get_single_mission k s
              = (Return (MissionOut.mk k (Mission.is_complete m)
                           (Mission.cat_id m) xs), s)
            ∧ length xs = length (Mission.targets m)
            ∧ Mission.is_complete m = forallb Target.is_complete xs
  end.
Proof.
  intros Hwf%reachable_wf. unfold missions.get_single_mission. unfold bind.
  rewrite get_mission_wf by done.
  destruct (Dict.get (fake_missions_db s) k) as [m|] eqn:Hm; [|done].
  destruct (wf_mission_flag_derived s Hwf k m Hm) as (xs & Hxs & Hflag).
  exists xs. split_and!; [done| |symmetry; by eapply Forall2_length|done].
  unfold dump_mission, gets. rewrite (omap_lookup_owned _ _ xs) by done.
  by destruct (wf_missions s Hwf k m Hm) as (-> & _).
Qed.

Lemma X6_witness :
  reachable (run tom_on_mission reset_db_state)
  ∧ missions.get_single_mission 1 (run tom_on_mission reset_db_state)
    = (Return (MissionOut.mk 1 false (Some 1)
                 [Target.mk 1 "Alice" "FR" None true;
                  Target.mk 2 "Bob" "DE" None false]),
       run tom_on_mission reset_db_state).
Proof.
  assert (reachable (run tom_on_mission reset_db_state)) as H.
  { exists tom_on_mission. reflexivity. }
  split; [exact H|]. pose proof (X6_get_mission _ 1 H) as Hget.
  assert (Dict.get (fake_missions_db (run tom_on_mission reset_db_state)) 1
          = Some (Mission.mk 1 false (Some 1) [0%nat; 1%nat])) as Hm.
  { vm_compute. reflexivity. }
  rewrite Hm in Hget. destruct Hget as (xs & Hxs & -> & _).
  apply omap_lookup_owned in Hxs. vm_compute in Hxs. by subst xs.
Defined.

Lemma py_slice_nonneg {A} (xs : list A) (skip limit : Z) :
  0 ≤ skip → 0 ≤ limit →
  py_slice xs skip (skip + limit)
  = take (Z.to_nat limit) (drop (Z.to_nat skip) xs).
Proof.
  intros Hs Hl. unfold py_slice.
  destruct (Z.ltb_spec (skip + limit) 0); [lia|].
  destruct (Z.ltb_spec skip 0); [lia|].
  destruct (decide (Z.of_nat (length xs) ≤ skip)).
  - rewrite !drop_ge by lia. by rewrite !take_nil.
  - rewrite (Z.min_l skip) by lia.
    destruct (decide (skip + limit ≤ Z.of_nat (length xs))).
    + rewrite Z.min_l by lia. f_equal. lia.
    + rewrite Z.min_r by lia.
      rewrite !take_ge; [done|rewrite length_drop; lia..].
Qed.

(** X7. List Cats with a non-negative [skip] and [limit] skips [skip] Cats
    and returns the next [limit] of them in insertion order: at most [limit]
    Cats, none at all when [skip] reaches the number of Cats (an empty list,
    not an error), and the store is not written. *)
Theorem X7_list_cats_page (s : Store) (skip limit : Z) :
  0 ≤ skip → 0 ≤ limit →
  ∃ page,
    cats.list_spy_cats skip limit s = (Return page, s)
    ∧ page = take (Z.to_nat limit)
               (drop (Z.to_nat skip) (Dict.values (fake_cats_db s)))
    ∧ Z.of_nat (length page) ≤ limit
    ∧ (Z.of_nat (length (Dict.values (fake_cats_db s))) ≤ skip → page = []).
Proof.
  intros Hs Hl. eexists. split; [done|]. rewrite py_slice_nonneg by done.
  split_and!; [done| |].
  - rewrite length_take. lia.
  - intros Hlen. rewrite drop_ge by lia. apply take_nil.
Qed.

Lemma X7_witness :
  0 ≤ 1 ∧ 0 ≤ 5
  ∧ ∃ page,
      cats.list_spy_cats 1 5 (run two_cats reset_db_state)
      = (Return page, run two_cats reset_db_state)
      ∧ page = [Cat.mk 2 "Felix" 0 "abyssinian" 1%float None].
Proof.
  split; [lia|]. split; [lia|].
  destruct (X7_list_cats_page (run two_cats reset_db_state) 1 5)
    as (page & Hrun & Hpage & _); [lia|lia|].
  exists page. split; [exact Hrun|]. rewrite Hpage. vm_compute. reflexivity.
Defined.



(** X9. A Cat that was created can be fetched: after a successful create-cat
    request, Get Cat with the id of the response returns the same Cat; its id
    is the former value of the counter, which went up by one, it carries the
    fields of the request and no mission, and no other entry of the store
    changed. *)
Theorem X9_create_then_get_cat
    (s : Store) (api : TheCatAPI) (body : CatCreate.t) (cat : Cat.t) (s' : Store) :
  cats.create_spy_cat api body s = (Return cat, s') →
  cats.get_spy_cat (Cat.id cat) s' = (Return cat, s')
  ∧ cat = Cat.mk (next_cat_id s) (CatCreate.name body)
            (CatCreate.years_of_experience body) (CatCreate.breed body)
            (CatCreate.salary body) None
  ∧ next_cat_id s' = next_cat_id s + 1
  ∧ (∀ k, k ≠ Cat.id cat →
       Dict.get (fake_cats_db s') k = Dict.get (fake_cats_db s) k)
  ∧ fake_missions_db s' = fake_missions_db s
  ∧ fake_targets_db s' = fake_targets_db s
  ∧ heap s' = heap s.
Proof.
  destruct (CatCreate.valid body) eqn:Hvalid.
  2:{ unfold cats.create_spy_cat, request_body. rewrite Hvalid. by unfold bind, raise. }
  rewrite create_spy_cat_spec by done.
  destruct (breed_lookup api (CatCreate.breed body)); [done|].
  destruct (existsb _ _); [done|]. intros [= <- <-]. simpl.
  split_and!; try done.
  - unfold cats.get_spy_cat, crud.get_cat. mred.
    by rewrite get_set, decide_True.
  - intros k Hk. by rewrite get_set, decide_False.
Qed.

Lemma X9_witness :
  cats.create_spy_cat the_breeds tom reset_db_state
  = (Return (Cat.mk 1 "Tom" 3 "Siamese" 10%float None),
     step (POST_cats the_breeds tom) reset_db_state)
  ∧ cats.get_spy_cat 1 (step (POST_cats the_breeds tom) reset_db_state)
    = (Return (Cat.mk 1 "Tom" 3 "Siamese" 10%float None),
       step (POST_cats the_breeds tom) reset_db_state).
Proof.
  assert (cats.create_spy_cat the_breeds tom reset_db_state
          = (Return (Cat.mk 1 "Tom" 3 "Siamese" 10%float None),
             step (POST_cats the_breeds tom) reset_db_state)) as Hrun
    by (vm_compute; reflexivity).
  split; [exact Hrun|].
  by destruct (X9_create_then_get_cat _ _ _ _ _ Hrun) as [? _].
Defined.

(** X10. A Mission that was created can be fetched: on a reachable store,
    after a successful create-mission request, Get Mission with the id of the
    response returns the same body and writes nothing. *)
Theorem X10_create_then_get_mission
    (s : Store) (body : MissionCreate.t) (out : MissionOut.t) (s' : Store) :
  reachable s →
  missions.create_new_mission body s = (Return out, s') →
  missions.get_single_mission (MissionOut.id out) s' = (Return out, s').
Proof.
  intros Hwf%reachable_wf. unfold missions.create_new_mission, request_body.
  destruct (MissionCreate.valid body) eqn:Hvalid; [|by unfold bind, raise].
  unfold bind at 1, ret at 1. unfold bind at 1.
  pose proof (create_mission_wf s body Hvalid Hwf) as Hwf'.
  destruct (crud.create_mission body s) as [[m|?] s1] eqn:Hcreate; [|done].
  simpl in Hwf'. unfold dump_mission, gets. intros [= <- <-]. simpl.
  unfold missions.get_single_mission. unfold bind.
  rewrite get_mission_wf by done.
  rewrite create_mission_spec in Hcreate. simpl in Hcreate.
  injection Hcreate as <- <-. simpl.
  by rewrite get_set, decide_True.
Qed.

Lemma X10_witness :
  reachable reset_db_state
  ∧ missions.get_single_mission 1 (step (POST_missions two_targets) reset_db_state)
    = (Return (MissionOut.mk 1 false None
                 [Target.mk 1 "Alice" "FR" None false;
                  Target.mk 2 "Bob" "DE" None false]),
       step (POST_missions two_targets) reset_db_state).
Proof.
  assert (reachable reset_db_state) as H by (exists []; reflexivity).
  split; [exact H|].
  apply (X10_create_then_get_mission reset_db_state two_targets
           (MissionOut.mk 1 false None
              [Target.mk 1 "Alice" "FR" None false;
               Target.mk 2 "Bob" "DE" None false])); [exact H|].
  vm_compute. reflexivity.
Defined.

Lemma update_stored_target s s' t x x' :
  wf s → update s s' → stored_target s t x → stored_target s' t x' →
  Target.name x' = Target.name x ∧ Target.country x' = Target.country x
  ∧ (Target.is_complete x = true → x' = x).
Proof.
  intros Hwf Hupd (l & Hl & Hx) (l' & Hl' & Hx').
  destruct (update_targets_db s s' t l' Hupd Hl') as [Hold|[Hnew _]].
  - simplify_eq. destruct (update_heap s s' l x Hupd Hx) as (x1 & Hx1 & _ & ? & ? & ?).
    by simplify_eq.
  - destruct (wf_targets s Hwf t l Hl) as [? _]. lia.
Qed.

Lemma run_stored_target rs : ∀ s t x x',
  wf s → stored_target s t x → stored_target (run rs s) t x' →
  Target.name x' = Target.name x ∧ Target.country x' = Target.country x
  ∧ (Target.is_complete x = true → x' = x).
Proof.
  induction rs as [|r rs IH]; intros s t x x' Hwf Hx Hx'; simpl in *.
  { destruct Hx as (l & Hl & Hx), Hx' as (l' & Hl' & Hx'). by simplify_eq. }
  pose proof (step_wf r s Hwf) as Hwf1. pose proof (step_update r s Hwf) as Hupd.
  assert (∃ x1, stored_target (step r s) t x1) as [x1 Hx1].
  { destruct (Dict.get (fake_targets_db (step r s)) t) as [l1|] eqn:E.
    - destruct (wf_targets _ Hwf1 t l1 E) as (_ & x1 & ? & _). exists x1. by exists l1.
    - destruct Hx as (l & Hl & _), Hx' as (l' & Hl' & _).
      destruct (wf_targets s Hwf t l Hl) as [Hlt _].
      destruct (update_counters s _ Hupd) as (_ & _ & Hnt).
      destruct (run_unused rs (step r s) Hwf1) as (_ & _ & Hun).
      rewrite Hun in Hl'; [done|lia|done]. }
  destruct (update_stored_target s _ t x x1 Hwf Hupd Hx Hx1) as (Hn & Hc & Hf).
  destruct (IH (step r s) t x1 x' Hwf1 Hx1 Hx') as (Hn' & Hc' & Hf').
  split_and!; [congruence|congruence|].
  intros Hdone. rewrite <- (Hf Hdone). apply Hf'. by rewrite (Hf Hdone).
Qed.

(** X11. Completion of a Target is final and freezes it.  In a reachable
    store, whatever requests follow, the Target stored under an id keeps its
    name and country as long as it is stored, and once it is complete nothing
    about it changes any more: neither its completion flag nor its notes. *)
Theorem X11_complete_target_is_frozen
    (s : Store) (rs : list Request) (t : Z) (x x' : Target.t) :
  reachable s → stored_target s t x → stored_target (run rs s) t x' →
  Target.id x' = Target.id x ∧ Target.name x' = Target.name x
  ∧ Target.country x' = Target.country x
  ∧ (Target.is_complete x = true → x' = x).
Proof.
  intros Hwf%reachable_wf Hx Hx'.
  destruct (run_stored_target rs s t x x' Hwf Hx Hx') as (? & ? & ?).
  split_and!; try done.
  destruct Hx as (l & Hl & Hx), Hx' as (l' & Hl' & Hx').
  destruct (wf_targets s Hwf t l Hl) as (_ & y & Hy & Hid).
  destruct (wf_targets _ (run_wf rs s Hwf) t l' Hl') as (_ & y' & Hy' & Hid').
  congruence.
Qed.

Lemma X11_witness :
  reachable (run one_done reset_db_state)
  ∧ stored_target (run one_done reset_db_state) 1
      (Target.mk 1 "Alice" "FR" None true)
  ∧ ∀ x', stored_target
            (run [PATCH_target_notes 1 1 "late"; PATCH_target_complete 1 2]
                 (run one_done reset_db_state)) 1 x' →
          x' = Target.mk 1 "Alice" "FR" None true.
Proof.
  assert (reachable (run one_done reset_db_state)) as H.
  { exists one_done. reflexivity. }
  assert (stored_target (run one_done reset_db_state) 1
            (Target.mk 1 "Alice" "FR" None true)) as Hx.
  { exists 0%nat. split; vm_compute; reflexivity. }
  split; [exact H|]. split; [exact Hx|]. intros x' Hx'.
  by destruct (X11_complete_target_is_frozen _ _ _ _ _ H Hx Hx') as (_ & _ & _ & ->).
Defined.

Lemma run_missions rs : ∀ s k m m',
  wf s → Dict.get (fake_missions_db s) k = Some m →
  Dict.get (fake_missions_db (run rs s)) k = Some m' →
  Mission.id m' = Mission.id m
  ∧ Mission.targets m' = Mission.targets m
  ∧ (Mission.is_complete m = true → Mission.is_complete m' = true)
  ∧ (∀ c, Mission.cat_id m = Some c → Mission.cat_id m' = Some c).
Proof.
  induction rs as [|r rs IH]; intros s k m m' Hwf Hm Hm'; simpl in *.
  { by simplify_eq. }
  pose proof (step_wf r s Hwf) as Hwf1. pose proof (step_update r s Hwf) as Hupd.
  destruct (update_missions s _ k m Hwf Hupd Hm)
    as [Hgone|(m1 & Hm1 & Hid & Hts & Hflag & Hcat)].
  - destruct (wf_missions s Hwf k m Hm) as (_ & ? & _).
    destruct (update_counters s _ Hupd) as (_ & Hnm & _).
    destruct (run_unused rs (step r s) Hwf1) as (_ & Hun & _).
    rewrite Hun in Hm'; [done|lia|done].
  - destruct (IH (step r s) k m1 m' Hwf1 Hm1 Hm') as (Hid' & Hts' & Hflag' & Hcat').
    split_and!; [congruence|congruence|auto|auto].
Qed.

(** X12. What is fixed about a Mission.  In a reachable store, whatever
    requests follow, a Mission that is still stored has the id and the list
    of targets it had (no target is added or removed), is complete if it was
    complete, and has the cat reference it had if one was set: the reference
    is written once and never cleared. *)
Theorem X12_mission_is_monotone
    (s : Store) (rs : list Request) (k : Z) (m m' : Mission.t) :
  reachable s →
  Dict.get (fake_missions_db s) k = Some m →
  Dict.get (fake_missions_db (run rs s)) k = Some m' →
  Mission.id m' = Mission.id m
  ∧ Mission.targets m' = Mission.targets m
  ∧ (Mission.is_complete m = true → Mission.is_complete m' = true)
  ∧ (∀ c, Mission.cat_id m = Some c → Mission.cat_id m' = Some c).
Proof. intros Hwf%reachable_wf. by apply run_missions. Qed.

Lemma X12_witness :
  reachable (run tom_on_mission reset_db_state)
  ∧ ∀ m', Dict.get (fake_missions_db
                      (run [PATCH_target_complete 1 2; DELETE_cat 1]
                           (run tom_on_mission reset_db_state))) 1 = Some m' →
          Mission.targets m' = [0%nat; 1%nat] ∧ Mission.cat_id m' = Some 1.
Proof.
  assert (reachable (run tom_on_mission reset_db_state)) as H.
  { exists tom_on_mission. reflexivity. }
  split; [exact H|]. intros m' Hm'.
  destruct (X12_mission_is_monotone (run tom_on_mission reset_db_state)
              [PATCH_target_complete 1 2; DELETE_cat 1] 1
              (Mission.mk 1 false (Some 1) [0%nat; 1%nat]) m' H)
    as (_ & Hts & _ & Hcat); [vm_compute; reflexivity|exact Hm'|].
  split; [exact Hts|]. by apply Hcat.
Defined.

Lemma run_cats rs : ∀ s k cat cat',
  wf s → Dict.get (fake_cats_db s) k = Some cat →
  Dict.get (fake_cats_db (run rs s)) k = Some cat' →
  Cat.id cat' = Cat.id cat ∧ Cat.name cat' = Cat.name cat
  ∧ Cat.breed cat' = Cat.breed cat
  ∧ Cat.years_of_experience cat' = Cat.years_of_experience cat.
Proof.
  induction rs as [|r rs IH]; intros s k cat cat' Hwf Hc Hc'; simpl in *.
  { by simplify_eq. }
  pose proof (step_wf r s Hwf) as Hwf1. pose proof (step_update r s Hwf) as Hupd.
  destruct (Dict.get (fake_cats_db (step r s)) k) as [cat1|] eqn:Hc1.
  - destruct (IH (step r s) k cat1 cat' Hwf1 Hc1 Hc') as (? & ? & ? & ?).
    destruct (update_cats s _ k cat1 Hupd Hc1)
      as [(c0 & Hc0 & ? & ? & ? & ?)|(-> & _)].
    + simplify_eq. split_and!; congruence.
    + apply (wf_cats s Hwf) in Hc. lia.
  - destruct (wf_cats s Hwf k cat Hc) as (_ & ?).
    destruct (update_counters s _ Hupd) as (Hnc & _).
    destruct (run_unused rs (step r s) Hwf1) as (Hun & _).
    rewrite Hun in Hc'; [done|lia|done].
Qed.

(** X13. What is fixed about a Cat.  In a reachable store, whatever requests
    follow, a Cat that is still stored has the id, name, breed and years of
    experience it had: only its salary and its mission reference are ever
    written. *)
Theorem X13_cat_identity_is_fixed
    (s : Store) (rs : list Request) (k : Z) (cat cat' : Cat.t) :
  reachable s →
  Dict.get (fake_cats_db s) k = Some cat →
  Dict.get (fake_cats_db (run rs s)) k = Some cat' →
  Cat.id cat' = Cat.id cat ∧ Cat.name cat' = Cat.name cat
  ∧ Cat.breed cat' = Cat.breed cat
  ∧ Cat.years_of_experience cat' = Cat.years_of_experience cat.
Proof. intros Hwf%reachable_wf. by apply run_cats. Qed.

Lemma X13_witness :
  reachable (run tom_on_mission reset_db_state)
  ∧ ∀ cat', Dict.get (fake_cats_db
                        (run [PATCH_cat_salary 1 (CatUpdate.mk (Some 99%float));
                              PATCH_target_complete 1 2]
                             (run tom_on_mission reset_db_state))) 1 = Some cat' →
            Cat.name cat' = "Tom" ∧ Cat.breed cat' = "Siamese".
Proof.
  assert (reachable (run tom_on_mission reset_db_state)) as H.
  { exists tom_on_mission. reflexivity. }
  split; [exact H|]. intros cat' Hc'.
  destruct (X13_cat_identity_is_fixed (run tom_on_mission reset_db_state)
              [PATCH_cat_salary 1 (CatUpdate.mk (Some 99%float));
               PATCH_target_complete 1 2] 1
              (Cat.mk 1 "Tom" 3 "Siamese" 10%float (Some 1)) cat' H)
    as (_ & Hn & Hb & _); [vm_compute; reflexivity|exact Hc'|].
  by split.
Defined.

(** X14. A Cat is on at most one active Mission.  In a reachable store two
    stored Missions that are not complete and name the same Cat are the same
    Mission, that Cat is stored and its mission reference names this
    Mission. *)
Theorem X14_one_active_mission_per_cat
    (s : Store) (k1 k2 : Z) (m1 m2 : Mission.t) (c : Z) :
  reachable s →
  Dict.get (fake_missions_db s) k1 = Some m1 → Mission.is_complete m1 = false →
  Mission.cat_id m1 = Some c →
  Dict.get (fake_missions_db s) k2 = Some m2 → Mission.is_complete m2 = false →
  Mission.cat_id m2 = Some c →
  k1 = k2
  ∧ ∃ cat, Dict.get (fake_cats_db s) c = Some cat ∧ Cat.mission_id cat = Some k1.
Proof.
  intros Hwf%reachable_wf Hm1 Hi1 Hc1 Hm2 Hi2 Hc2.
  destruct (wf_mission_link s Hwf k1 m1 c Hm1 Hi1 Hc1) as (cat & Hcat & Hk1).
  destruct (wf_mission_link s Hwf k2 m2 c Hm2 Hi2 Hc2) as (cat' & Hcat' & Hk2).
  split; [congruence|by exists cat].
Qed.

Lemma X14_witness :
  reachable (run tom_on_mission reset_db_state)
  ∧ ∃ cat, Dict.get (fake_cats_db (run tom_on_mission reset_db_state)) 1 = Some cat
           ∧ Cat.mission_id cat = Some 1.
Proof.
  assert (reachable (run tom_on_mission reset_db_state)) as H.
  { exists tom_on_mission. reflexivity. }
  split; [exact H|].
  apply (X14_one_active_mission_per_cat _ 1 1
           (Mission.mk 1 false (Some 1) [0%nat; 1%nat])
           (Mission.mk 1 false (Some 1) [0%nat; 1%nat]) 1 H);
    vm_compute; reflexivity.
Defined.

(** X15. Complete Target on a reachable store answers NotFound when the
    Mission is absent and 400 when the Mission is complete, whatever the
    target id; with an incomplete Mission, NotFound when the target id names
    no Target of that Mission, and otherwise it returns that Target with its
    completion flag set.  A failure leaves the store as it was, and when
    another Target of the Mission is still incomplete the only thing written
    is the completion flag of this Target: the Mission is not complete and no
    Cat is touched. *)
Theorem X15_mark_target_complete (s : Store) (k t : Z) :
  reachable s →
  ∃ r s',
    missions.mark_mission_target_complete k t s = (r, s')
    ∧ (Dict.get (fake_missions_db s) k = None → r = Raise NotFound)
    ∧ (∀ m, Dict.get (fake_missions_db s) k = Some m →
         (Mission.is_complete m = true → r = Raise Forbidden)
         ∧ (Mission.is_complete m = false → (¬ ∃ x, owns s m t x) →
            r = Raise NotFound)
         ∧ (Mission.is_complete m = false → ∀ x, owns s m t x →
            r = Return (Target.with_is_complete true x)
            ∧ (Target.is_complete x = true → s' = s)
            ∧ (Target.is_complete x = false →
               (∃ t' x', owns s m t' x' ∧ t' ≠ t ∧ Target.is_complete x' = false) →
               ∃ l, Dict.get (fake_targets_db s) t = Some l
                    ∧ s' = set_heap
                             (alter (Target.with_is_complete true) l (heap s)) s)))
    ∧ (∀ e, r = Raise e → s' = s).
Proof.
  intros Hwf%reachable_wf. unfold missions.mark_mission_target_complete.
  unfold bind. rewrite mark_target_complete_spec by done.
  destruct (Dict.get (fake_missions_db s) k) as [m|] eqn:Hm.
  2:{ do 2 eexists. split; [done|]. by split_and!. }
  destruct (Mission.is_complete m) eqn:Hinc.
  { do 2 eexists. split; [done|]. split_and!; [done| |done].
    intros ? [= <-]. split_and!; [done|congruence|congruence]. }
  destruct (Dict.get (fake_targets_db s) t) as [l|] eqn:Ht.
  2:{ do 2 eexists. split; [done|]. split_and!; [done| |done].
      intros ? [= <-]. split_and!; [congruence|done|].
      intros _ x Hx. destruct (owns_lookup s k m t x Hwf Hm Hx) as (l & Hl & _).
      congruence. }
  destruct (bool_decide (l ∈ Mission.targets m)) eqn:Hl; simpl.
  2:{ apply bool_decide_eq_false in Hl.
      do 2 eexists. split; [done|]. split_and!; [done| |done].
      intros ? [= <-]. split_and!; [congruence|done|].
      intros _ x Hx. destruct (owns_lookup s k m t x Hwf Hm Hx) as (l' & Hl' & ? & _).
      congruence. }
  apply bool_decide_eq_true in Hl.
  destruct (lookup_owns s k m t l Hwf Hm Ht Hl) as (x & Hx & Hown).
  assert (Huniq : ∀ x', owns s m t x' → x' = x).
  { intros x' Hx'. destruct (owns_lookup s k m t x' Hwf Hm Hx') as (l' & ? & _ & ?).
    congruence. }
  destruct (is_complete_at (heap s) l) eqn:Hat;
    unfold is_complete_at in Hat; rewrite Hx in Hat.
  - unfold dump_target. mred. rewrite Hx.
    do 2 eexists. split; [done|]. split_and!; [done| |done].
    intros ? [= <-]. split_and!; [congruence| |].
    + intros _ []. by exists x.
    + intros _ x' ->%Huniq. split_and!; [|done|congruence].
      destruct x; simpl in *. by subst.
  - unfold dump_target. mred. rewrite completed_heap, list_lookup_alter_eq, Hx.
    simpl. do 2 eexists. split; [done|]. split_and!; [done| |done].
    intros ? [= <-]. split_and!; [congruence| |].
    + intros _ []. by exists x.
    + intros _ x' ->%Huniq. split_and!; [done|congruence|].
      intros _ (t' & x' & Hx' & Hne & Hinc'). exists l. split; [done|].
      destruct (owns_lookup s k m t' x' Hwf Hm Hx') as (l' & Ht' & Hl' & Hlx').
      unfold completed. simpl.
      assert (forallb (is_complete_at
                (alter (Target.with_is_complete true) l (heap s)))
                (Mission.targets m) = false) as ->; [|done].
      apply not_true_is_false. rewrite forallb_true_elem. intros Hall.
      specialize (Hall l' Hl'). rewrite is_complete_at_alter_ne in Hall.
      * unfold is_complete_at in Hall. rewrite Hlx' in Hall. congruence.
      * intros <-.
        destruct (wf_targets s Hwf t l Ht) as (_ & y & Hy & Hidy).
        destruct (wf_targets s Hwf t' l Ht') as (_ & y' & Hy' & Hidy').
        congruence.
Qed.

Lemma X15_witness :
  reachable (run [POST_missions two_targets] reset_db_state)
  ∧ ∃ r s',
      missions.mark_mission_target_complete 1 1
        (run [POST_missions two_targets] reset_db_state) = (r, s')
      ∧ r = Return (Target.mk 1 "Alice" "FR" None true)
      ∧ ∀ e, r = Raise e → s' = run [POST_missions two_targets] reset_db_state.
Proof.
  assert (reachable (run [POST_missions two_targets] reset_db_state)) as H.
  { exists [POST_missions two_targets]. reflexivity. }
  split; [exact H|].
  destruct (X15_mark_target_complete _ 1 1 H) as (r & s' & Hrun & _ & Hm & Hfail).
  exists r, s'. split; [exact Hrun|]. split; [|exact Hfail].
  destruct (Hm (Mission.mk 1 false None [0%nat; 1%nat])) as (_ & _ & Hok);
    [vm_compute; reflexivity|].
  destruct (Hok eq_refl (Target.mk 1 "Alice" "FR" None false)) as [-> _];
    [|reflexivity].
  exists 0%nat. split_and!; [|vm_compute; reflexivity|reflexivity].
  apply list_elem_of_In. simpl. auto.
Defined.



Lemma lookup_created_Some tcs : ∀ n i tc,
  tcs !! i = Some tc →
  created n tcs !! i
  = Some (Target.mk (n + Z.of_nat i) (TargetCreate.name tc)
            (TargetCreate.country tc) (TargetCreate.notes tc) false).
Proof.
  induction tcs as [|tc0 tcs IH]; intros n [|i] tc; simpl; try done.
  - intros [= <-]. by rewrite Z.add_0_r.
  - intros Hi. rewrite (IH (n + 1) i tc Hi). do 2 f_equal. lia.
Qed.

(** X17. Create Mission numbers what it stores from the counters.  For a
    body with one to three targets the response has the former value of the
    mission counter as id, no cat, and one Target for each target
    specification, in the order of the body: the i-th one has as id the former
    value of the target counter plus i and the name, country and notes of the
    i-th specification.  The counters go up by the number of targets and by
    one, and the Cats and every Mission and Target stored under another id
    are as before. *)
Theorem X17_create_mission_numbering (s : Store) (body : MissionCreate.t) :
  MissionCreate.valid body = true →
  ∃ out s',
    missions.create_new_mission body s = (Return out, s')
    ∧ MissionOut.id out = next_mission_id s
    ∧ MissionOut.cat_id out = None
    ∧ length (MissionOut.targets out) = length (MissionCreate.targets body)
    ∧ (∀ i tc, MissionCreate.targets body !! i = Some tc →
         MissionOut.targets out !! i
         = Some (Target.mk (next_target_id s + Z.of_nat i) (TargetCreate.name tc)
                   (TargetCreate.country tc) (TargetCreate.notes tc) false))
    ∧ next_mission_id s' = next_mission_id s + 1
    ∧ next_target_id s'
      = next_target_id s + Z.of_nat (length (MissionCreate.targets body))
    ∧ next_cat_id s' = next_cat_id s
    ∧ fake_cats_db s' = fake_cats_db s
    ∧ (∀ k, k ≠ next_mission_id s →
         Dict.get (fake_missions_db s') k = Dict.get (fake_missions_db s) k)
    ∧ (∀ t, ¬ (next_target_id s ≤ t < next_target_id s') →
         Dict.get (fake_targets_db s') t = Dict.get (fake_targets_db s) t)
    ∧ (∀ l x, heap s !! l = Some x → heap s' !! l = Some x).
Proof.
  intros Hvalid. unfold missions.create_new_mission, request_body.
  rewrite Hvalid. unfold bind at 1, ret at 1. unfold bind.
  rewrite create_mission_spec. cbv zeta. unfold dump_mission, gets.
  do 2 eexists. split; [done|]. simpl. rewrite omap_lookup_created.
  split_and!; try done.
  - apply length_created.
  - intros i tc Hi. by apply lookup_created_Some.
  - intros k Hk. by rewrite get_set, decide_False.
  - intros t Ht. by rewrite get_registered, decide_False.
  - intros l x Hx. rewrite lookup_app_l; [done|]. by eapply lookup_lt_Some.
Qed.

Lemma X17_witness :
  MissionCreate.valid two_targets = true
  ∧ ∃ out s',
      missions.create_new_mission two_targets
        (run [POST_missions one_target] reset_db_state) = (Return out, s')
      ∧ MissionOut.id out = 2
      ∧ MissionOut.targets out !! 1%nat = Some (Target.mk 3 "Bob" "DE" None false).
Proof.
  split; [vm_compute; reflexivity|].
  destruct (X17_create_mission_numbering
              (run [POST_missions one_target] reset_db_state) two_targets)
    as (out & s' & Hrun & Hid & _ & _ & Hts & _); [vm_compute; reflexivity|].
  exists out, s'. split; [exact Hrun|]. split; [exact Hid|].
  apply (Hts 1%nat (TargetCreate.mk "Bob" "DE" None false)). reflexivity.
Defined.

Lemma StronglySorted_filter {A} (R : relation A) (P : A → Prop)
    `{!∀ x, Decision (P x)} (l : list A) :
  StronglySorted R l → StronglySorted R (filter P l).
Proof.
  induction 1 as [|x l Hl IH Hx]; [constructor|].
  destruct (decide (P x)).
  - rewrite filter_cons_True by done. constructor; [done|].
    apply Forall_forall. intros y [_ Hy]%list_elem_of_filter.
    by eapply Forall_forall in Hx.
  - by rewrite filter_cons_False.
Qed.

Lemma StronglySorted_take_drop {A} (R : relation A) (l : list A) n k :
  StronglySorted R l → StronglySorted R (take n (drop k l)).
Proof.
  intros Hl. rewrite <- (take_drop k l) in Hl.
  apply StronglySorted_app_1_r in Hl.
  rewrite <- (take_drop n (drop k l)) in Hl.
  by apply StronglySorted_app_1_l in Hl.
Qed.

Lemma sorted_set_fresh {V} (d : Dict.t V) k v :
  StronglySorted Z.lt (Dict.keys d) → (∀ k', k' ∈ Dict.keys d → k' < k) →
  StronglySorted Z.lt (Dict.keys (Dict.set d k v))
  ∧ ∀ k', k' ∈ Dict.keys (Dict.set d k v) → k' < k + 1.
Proof.
  intros Hd Hlt. rewrite keys_set.
  destruct (Dict.contains d k) eqn:E.
  { apply contains_true, elem_of_keys, Hlt in E. lia. }
  split.
  - apply StronglySorted_app_2; [|done|repeat constructor].
    intros x1 x2 Hx1 ->%list_elem_of_singleton. by apply Hlt.
  - intros k' [Hk'|Hk']%elem_of_app.
    + apply Hlt in Hk'. lia.
    + apply list_elem_of_singleton in Hk'. lia.
Qed.

Lemma sorted_pop {V} (d : Dict.t V) k :
  StronglySorted Z.lt (Dict.keys d) → StronglySorted Z.lt (Dict.keys (Dict.pop d k)).
Proof. rewrite keys_pop. apply StronglySorted_filter. Qed.

Lemma sorted_registered count : ∀ d n l,
  StronglySorted Z.lt (Dict.keys d) → (∀ k', k' ∈ Dict.keys d → k' < n) →
  StronglySorted Z.lt (Dict.keys (registered d n l count)).
Proof.
  induction count as [|c IH]; intros d n l Hd Hlt; simpl; [done|].
  destruct (sorted_set_fresh d n l Hd Hlt) as [Hs Hb]. by apply IH.
Qed.

Lemma sorted_popped h ls : ∀ d,
  StronglySorted Z.lt (Dict.keys d) → StronglySorted Z.lt (Dict.keys (popped h d ls)).
Proof.
  induction ls as [|l ls IH]; intros d Hd; simpl; [done|].
  apply IH. destruct (h !! l); [by apply sorted_pop|done].
Qed.

Lemma update_keys_ascending s s' :
  wf s → keys_ascending s → update s s' → keys_ascending s'.
Proof.
  intros Hwf (Hc & Hm & Ht) Hupd.
  assert (∀ k, k ∈ Dict.keys (fake_cats_db s) → k < next_cat_id s) as Hbc.
  { intros k [c Hk]%elem_of_keys. apply (wf_cats s Hwf) in Hk. lia. }
  assert (∀ k, k ∈ Dict.keys (fake_missions_db s) → k < next_mission_id s) as Hbm.
  { intros k [m Hk]%elem_of_keys. apply (wf_missions s Hwf) in Hk. lia. }
  assert (∀ k, k ∈ Dict.keys (fake_targets_db s) → k < next_target_id s) as Hbt.
  { intros k [l Hk]%elem_of_keys. apply (wf_targets s Hwf) in Hk. lia. }
  destruct Hupd as [| | | | mission_in Hvalid | | | k0 t m0 l0 |];
    unfold keys_ascending; simpl; rewrite ?keys_alter; try done.
  - split_and!; try done. by apply sorted_set_fresh.
  - split_and!; try done. by apply sorted_pop.
  - rewrite create_mission_spec. simpl. split_and!; [done| |].
    + by apply sorted_set_fresh.
    + by apply sorted_registered.
  - rewrite completed_targets_db, completed_missions_db.
    split_and!; [|by destruct (forallb _ _); rewrite ?keys_alter|done].
    destruct (completed_cats_db s k0 m0 l0) as [->|(c & _ & ->)];
      by rewrite ?keys_alter.
  - split_and!; [done|by apply sorted_pop|by apply sorted_popped].
Qed.

Lemma reachable_keys_ascending s : reachable s → keys_ascending s.
Proof.
  revert s. apply run_invariant.
  - repeat split; constructor.
  - intros s s' Hwf IH Hupd. by eapply update_keys_ascending.
Qed.

Lemma fmap_id_values (d : Dict.t Cat.t) :
  (∀ k cat, (k, cat) ∈ d → Cat.id cat = k) →
  Cat.id <$> Dict.values d = Dict.keys d.
Proof.
  unfold Dict.values, Dict.keys. induction d as [|[k c] d IH]; intros Hid; [done|].
  simpl. f_equal.
  - apply Hid. left.
  - apply IH. intros k' c' Hin. apply Hid. by right.
Qed.

Lemma py_slice_fmap {A B} (f : A → B) (xs : list A) start stop :
  f <$> py_slice xs start stop = py_slice (f <$> xs) start stop.
Proof. unfold py_slice. by rewrite fmap_take, fmap_drop, length_fmap. Qed.

Lemma py_slice_sorted {A} (R : relation A) (xs : list A) start stop :
  StronglySorted R xs → StronglySorted R (py_slice xs start stop).
Proof. apply StronglySorted_take_drop. Qed.

Lemma dump_missions_spec ms s :
  missions.dump_missions ms s = (Return (dumped s <$> ms), s).
Proof.
  induction ms as [|m ms IH]; simpl; [done|].
  unfold bind at 1. unfold dump_mission at 1, gets at 1. unfold bind.
  by rewrite IH.
Qed.

Lemma fmap_id_omap_get (d : Dict.t Mission.t) (ks : list Z) :
  (∀ k, k ∈ ks → ∃ m, Dict.get d k = Some m ∧ Mission.id m = k) →
  Mission.id <$> omap (Dict.get d) ks = ks.
Proof.
  induction ks as [|k ks IH]; intros Hks; simpl; [done|].
  destruct (Hks k) as (m & -> & Hid); [left|]. simpl. f_equal; [done|].
  apply IH. intros. apply Hks. by right.
Qed.

Lemma elem_of_py_slice {A} (xs : list A) start stop x :
  x ∈ py_slice xs start stop → x ∈ xs.
Proof.
  unfold py_slice. intros (i & Hi & _)%elem_of_take.
  rewrite lookup_drop in Hi. by eapply list_elem_of_lookup_2.
Qed.

(** X18. The list requests answer in order of creation.  On a reachable
    store, for any [skip] and [limit] (negative ones too), List Cats and List
    Missions succeed without writing, the ids of the page are the slice
    [skip : skip + limit] of the ids of all stored Cats (Missions), which are
    in strictly ascending order, and so the page is in strictly ascending
    order of id. *)
Theorem X18_lists_in_id_order (s : Store) (skip limit : Z) :
  reachable s →
  (∃ page,
     cats.list_spy_cats skip limit s = (Return page, s)
     ∧ Cat.id <$> page = py_slice (Dict.keys (fake_cats_db s)) skip (skip + limit)
     ∧ StronglySorted Z.lt (Cat.id <$> page))
  ∧ (∃ page,
       missions.list_all_missions skip limit s = (Return page, s)
       ∧ MissionOut.id <$> page
         = py_slice (Dict.keys (fake_missions_db s)) skip (skip + limit)
       ∧ StronglySorted Z.lt (MissionOut.id <$> page))
  ∧ StronglySorted Z.lt (Dict.keys (fake_cats_db s))
  ∧ StronglySorted Z.lt (Dict.keys (fake_missions_db s)).
Proof.
  intros Hs. pose proof (reachable_wf s Hs) as Hwf.
  destruct (reachable_keys_ascending s Hs) as (Hc & Hm & _).
  destruct (wf_keys s Hwf) as (Hnc & Hnm & _).
  split_and!; [| |done|done].
  - eexists. split; [done|].
    assert (Cat.id <$> py_slice (Dict.values (fake_cats_db s)) skip (skip + limit)
            = py_slice (Dict.keys (fake_cats_db s)) skip (skip + limit)) as Hids.
    { rewrite py_slice_fmap, fmap_id_values; [done|].
      intros k cat Hin%elem_of_get; [|done]. by apply (wf_cats s Hwf) in Hin as [? _]. }
    split; [done|]. rewrite Hids. by apply py_slice_sorted.
  - unfold missions.list_all_missions, crud.get_missions.
    unfold bind at 1. unfold bind at 1, gets at 1. unfold bind at 1.
    rewrite refresh_each_wf by done. unfold gets. rewrite dump_missions_spec.
    eexists. split; [done|].
    assert (MissionOut.id <$>
              (dumped s <$>
                 omap (Dict.get (fake_missions_db s))
                   (py_slice (Dict.keys (fake_missions_db s)) skip (skip + limit)))
            = py_slice (Dict.keys (fake_missions_db s)) skip (skip + limit)) as Hids.
    { rewrite <- list_fmap_compose.
      apply fmap_id_omap_get. intros k [m Hk]%elem_of_py_slice%elem_of_keys.
      exists m. split; [done|]. by apply (wf_missions s Hwf) in Hk as [? _]. }
    split; [done|]. rewrite Hids. by apply py_slice_sorted.
Qed.

Lemma X18_witness :
  reachable (run two_cats reset_db_state)
  ∧ ∃ page,
      cats.list_spy_cats (-1) 5 (run two_cats reset_db_state)
      = (Return page, run two_cats reset_db_state)
      ∧ Cat.id <$> page = [2].
Proof.
  assert (reachable (run two_cats reset_db_state)) as H.
  { exists two_cats. reflexivity. }
  split; [exact H|].
  destruct (X18_lists_in_id_order _ (-1) 5 H) as ((page & Hrun & Hids & _) & _).
  exists page. split; [exact Hrun|]. rewrite Hids. vm_compute. reflexivity.
Defined.

(** X19. An active assignment locks both sides.  On a reachable store, while
    a stored Mission that is not complete names a Cat, deleting that Cat is
    refused (400), deleting the Mission is refused (400), assigning another
    Cat to the Mission is refused (404 if that Cat is absent, else 409), and
    assigning the Cat to any Mission is refused (404 if the Mission is absent,
    else 409); none of these writes to the store. *)
Theorem X19_active_assignment_locks
    (s : Store) (k : Z) (m : Mission.t) (c : Z) :
  reachable s →
  Dict.get (fake_missions_db s) k = Some m → Mission.is_complete m = false →
  Mission.cat_id m = Some c →
  cats.delete_spy_cat c s = (Raise (mkHTTPException HTTP_400_BAD_REQUEST), s)
  ∧ missions.delete_a_mission k s
    = (Raise (mkHTTPException HTTP_400_BAD_REQUEST), s)
  ∧ (∀ c', missions.assign_cat_to_a_mission k (MissionAssignment.mk c') s
           = (Raise (match Dict.get (fake_cats_db s) c' with
                    | Some _ => Conflict
                    | None => NotFound
                    end), s))
  ∧ (∀ k', missions.assign_cat_to_a_mission k' (MissionAssignment.mk c) s
           = (Raise (match Dict.get (fake_missions_db s) k' with
                    | Some _ => Conflict
                    | None => NotFound
                    end), s)).
Proof.
  intros Hwf%reachable_wf Hm Hinc Hc.
  destruct (wf_mission_link s Hwf k m c Hm Hinc Hc) as (cat & Hcat & Hk).
  assert (on_active_mission s cat = true) as Hact.
  { unfold on_active_mission. by rewrite Hk, Hm, Hinc. }
  split_and!.
  - unfold cats.delete_spy_cat. unfold bind.
    by rewrite delete_cat_spec, Hcat, Hact.
  - unfold missions.delete_a_mission. unfold bind.
    rewrite delete_mission_spec, Hm by done.
    unfold delete_forbidden, opt_int_eqb. by rewrite Hc, Hcat, Hk, Z.eqb_refl, Hinc.
  - intros c'. unfold missions.assign_cat_to_a_mission. simpl. unfold bind.
    rewrite assign_cat_to_mission_spec, Hm by done.
    destruct (Dict.get (fake_cats_db s) c'); [|done]. by rewrite Hc.
  - intros k'. unfold missions.assign_cat_to_a_mission. simpl. unfold bind.
    rewrite assign_cat_to_mission_spec, Hcat by done.
    destruct (Dict.get (fake_missions_db s) k') as [m'|]; [|done].
    destruct (Mission.cat_id m'); [done|]. by rewrite Hact.
Qed.

Lemma X19_witness :
  reachable (run tom_on_mission reset_db_state)
  ∧ cats.delete_spy_cat 1 (run tom_on_mission reset_db_state)
    = (Raise (mkHTTPException HTTP_400_BAD_REQUEST),
       run tom_on_mission reset_db_state).
Proof.
  assert (reachable (run tom_on_mission reset_db_state)) as H.
  { exists tom_on_mission. reflexivity. }
  split; [exact H|].
  apply (X19_active_assignment_locks _ 1
           (Mission.mk 1 false (Some 1) [0%nat; 1%nat]) 1 H);
    vm_compute; reflexivity.
Defined.
